(** * Ansible MCP server: process execution and streaming core

    A shallow embedding of [mcp_server.py]: the execution environment
    builder, the bounded process runner, the streaming relay of
    [run_playbook], and the [list_inventory] and [generate_playbook]
    endpoints, together with the properties the specification states
    about them; then the remaining tools ([list_hosts],
    [validate_playbook], [ping_hosts], [run_ad_hoc] and
    [get_ansible_version]) and further properties of the code.

    Python values are modelled as follows: [str] is a list of Unicode code
    points, [bytes] a list of [Byte.byte], [int] is [Z], a dict with string
    keys is a [gmap].  What the operating system and the asyncio library do
    (launching, reading, waiting, the file system) is an explicit input of
    each function, so every theorem quantifies over all behaviours of the
    outside world. *)

From Stdlib Require Import ZArith NArith Ascii String DecimalString List Lia.
From Stdlib Require Import DecimalFacts DecimalPos DecimalZ.
From Stdlib Require Import Strings.Byte.
From stdpp Require Import base option list gmap.

Set Warnings "-register-all".

Local Open Scope N_scope.

(** ** Python text *)

(** A Python [str]: the sequence of its code points. *)
Abbreviation str := (list N).

(** A Python [bytes] object. *)
Abbreviation bytes := (list byte).

(** The [str] written by an ASCII literal of the source. *)
Fixpoint lit (s : string) : str :=
  match s with
  | EmptyString => []
  | String a s' => N_of_ascii a :: lit s'
  end.

(** The [bytes] written by an ASCII literal. *)
Definition blit (s : string) : bytes := list_byte_of_string s.

Definition LF : N := 10.
Definition SLASH : N := 47.

(** [str(n)] and the [{n}] field of an f-string, for an [int]. *)
Definition str_of_int (z : Z) : str := lit (NilZero.string_of_int (Z.to_int z)).

(** *** Whitespace: [str.isspace], [str.rstrip()] and [str.strip()] *)

(** The code points Python regards as whitespace ([Py_UNICODE_ISSPACE]). *)
Definition isspace (c : N) : bool :=
  ((0x09 <=? c) && (c <=? 0x0D)) || ((0x1C <=? c) && (c <=? 0x20))
  || (c =? 0x85) || (c =? 0xA0) || (c =? 0x1680)
  || ((0x2000 <=? c) && (c <=? 0x200A))
  || (c =? 0x2028) || (c =? 0x2029) || (c =? 0x202F) || (c =? 0x205F)
  || (c =? 0x3000).

(** [s.lstrip()] *)
Fixpoint lstrip (s : str) : str :=
  match s with
  | c :: s' => if isspace c then lstrip s' else s
  | [] => []
  end.

(** [s.rstrip()]: the longest prefix that does not end in whitespace. *)
Fixpoint rstrip (s : str) : str :=
  match s with
  | [] => []
  | c :: s' =>
      match rstrip s' with
      | [] => if isspace c then [] else [c]
      | t => c :: t
      end
  end.

(** [s.strip()] *)
Definition strip (s : str) : str := rstrip (lstrip s).

(** A text is blank when it holds nothing but whitespace. *)
Definition blank (s : str) : bool := forallb isspace s.

(** *** [bytes.decode()]: strict UTF-8 *)

Definition is_cont (b : N) : bool := (0x80 <=? b) && (b <=? 0xBF).

(** The payload bits of a continuation byte. *)
Definition low6 (b : N) : N := N.land b 0x3F.

(** Why a decoding stopped: the offsets [start, stop) of the offending
    bytes and the reason CPython reports. *)
Record decode_error := {
  bad_start : nat;
  bad_stop : nat;
  bad_reason : string
}.

Definition invalid_start (pos : nat) : decode_error :=
  {| bad_start := pos; bad_stop := S pos; bad_reason := "invalid start byte" |}.

(** [k] is the number of bytes of the sequence that were acceptable. *)
Definition invalid_continuation (pos k : nat) : decode_error :=
  {| bad_start := pos; bad_stop := (pos + k)%nat;
     bad_reason := "invalid continuation byte" |}.

Definition unexpected_end (pos remaining : nat) : decode_error :=
  {| bad_start := pos; bad_stop := (pos + remaining)%nat;
     bad_reason := "unexpected end of data" |}.

(** The second byte of a three-byte sequence led by [b0]: [E0] excludes the
    overlong forms, [ED] the surrogates. *)
Definition second_of_3 (b0 b1 : N) : bool :=
  is_cont b1 && negb (if b1 <? 0xA0 then b0 =? 0xE0 else b0 =? 0xED).

(** The second byte of a four-byte sequence led by [b0]: [F0] excludes the
    overlong forms, [F4] what lies beyond U+10FFFF. *)
Definition second_of_4 (b0 b1 : N) : bool :=
  is_cont b1 && negb (if b1 <? 0x90 then b0 =? 0xF0 else b0 =? 0xF4).

Definition prepend (c : N) (r : str + decode_error) : str + decode_error :=
  match r with
  | inl s => inl (c :: s)
  | inr e => inr e
  end.

(** The decoder proper, on byte values; [pos] is the offset of the head of
    [bs] in the whole input. *)
Fixpoint utf8_decode (pos : nat) (bs : list N) : str + decode_error :=
  match bs with
  | [] => inl []
  | b0 :: r0 =>
      if b0 <? 0x80 then prepend b0 (utf8_decode (S pos) r0)
      else if b0 <? 0xC2 then inr (invalid_start pos)
      else if b0 <? 0xE0 then
        match r0 with
        | [] => inr (unexpected_end pos 1)
        | b1 :: r1 =>
            if is_cont b1
            then prepend (N.shiftl (N.land b0 0x1F) 6 + low6 b1)
                         (utf8_decode (2 + pos) r1)
            else inr (invalid_continuation pos 1)
        end
      else if b0 <? 0xF0 then
        match r0 with
        | [] => inr (unexpected_end pos 1)
        | b1 :: r1 =>
            if negb (second_of_3 b0 b1) then inr (invalid_continuation pos 1)
            else
              match r1 with
              | [] => inr (unexpected_end pos 2)
              | b2 :: r2 =>
                  if is_cont b2
                  then prepend (N.shiftl (N.land b0 0x0F) 12
                                + N.shiftl (low6 b1) 6 + low6 b2)
                               (utf8_decode (3 + pos) r2)
                  else inr (invalid_continuation pos 2)
              end
        end
      else if b0 <? 0xF5 then
        match r0 with
        | [] => inr (unexpected_end pos 1)
        | b1 :: r1 =>
            if negb (second_of_4 b0 b1) then inr (invalid_continuation pos 1)
            else
              match r1 with
              | [] => inr (unexpected_end pos 2)
              | b2 :: r2 =>
                  if negb (is_cont b2) then inr (invalid_continuation pos 2)
                  else
                    match r2 with
                    | [] => inr (unexpected_end pos 3)
                    | b3 :: r3 =>
                        if is_cont b3
                        then prepend (N.shiftl (N.land b0 0x07) 18
                                      + N.shiftl (low6 b1) 12
                                      + N.shiftl (low6 b2) 6 + low6 b3)
                                     (utf8_decode (4 + pos) r3)
                        else inr (invalid_continuation pos 3)
                    end
              end
        end
      else inr (invalid_start pos)
  end.

Definition hex_digit (d : N) : N :=
  if d <? 10 then 48 + d else 87 + d.

(** [str(e)] for the [UnicodeDecodeError] raised on input [b]. *)
Definition decode_error_text (b : bytes) (e : decode_error) : str :=
  let start := Z.of_nat (bad_start e) in
  let last := (Z.of_nat (bad_stop e) - 1)%Z in
  if Nat.eqb (bad_stop e) (S (bad_start e)) then
    let v := from_option Byte.to_N 0 (b !! bad_start e) in
    lit "'utf-8' codec can't decode byte 0x"
    ++ [hex_digit (v / 16); hex_digit (v mod 16)]
    ++ lit " in position " ++ str_of_int start
    ++ lit ": " ++ lit (bad_reason e)
  else
    lit "'utf-8' codec can't decode bytes in position "
    ++ str_of_int start ++ lit "-" ++ str_of_int last
    ++ lit ": " ++ lit (bad_reason e).

(** *** [json.dumps] of a [str] (with the default [ensure_ascii=True]) *)

Definition hex4 (n : N) : str :=
  [hex_digit (n / 4096 mod 16); hex_digit (n / 256 mod 16);
   hex_digit (n / 16 mod 16); hex_digit (n mod 16)].

Definition BACKSLASH : N := 92.

(** The escape of a UTF-16 code unit: a backslash, [u] and four digits. *)
Definition u_escape (n : N) : str := BACKSLASH :: lit "u" ++ hex4 n.

Definition json_escape (c : N) : str :=
  if c =? 34 then [BACKSLASH; 34]
  else if c =? BACKSLASH then [BACKSLASH; BACKSLASH]
  else if c =? 10 then BACKSLASH :: lit "n"
  else if c =? 13 then BACKSLASH :: lit "r"
  else if c =? 9 then BACKSLASH :: lit "t"
  else if c =? 8 then BACKSLASH :: lit "b"
  else if c =? 12 then BACKSLASH :: lit "f"
  else if (32 <=? c) && (c <=? 126) then [c]
  else if c <? 0x10000 then u_escape c
  else
    let v := c - 0x10000 in
    u_escape (N.lor 0xD800 (N.land (N.shiftr v 10) 0x3FF))
    ++ u_escape (N.lor 0xDC00 (N.land v 0x3FF)).

Definition json_dumps_str (s : str) : str :=
  [34] ++ flat_map json_escape s ++ [34].

(** *** JSON values and [json.dumps] *)

(** What a request body can hold under [Dict[str, Any]].  A float is kept
    as the text [repr] gives it; a dict keeps its insertion order. *)
Inductive json :=
| JNull
| JBool (b : bool)
| JInt (z : Z)
| JFloat (repr : str)
| JStr (s : str)
| JList (items : list json)
| JDict (members : list (str * json)).

(** [sep.join(parts)] *)
Fixpoint join (sep : str) (parts : list str) : str :=
  match parts with
  | [] => []
  | [p] => p
  | p :: rest => p ++ sep ++ join sep rest
  end.

(** [json.dumps(j)] with the default separators. *)
Fixpoint json_dumps (j : json) : str :=
  match j with
  | JNull => lit "null"
  | JBool true => lit "true"
  | JBool false => lit "false"
  | JInt z => str_of_int z
  | JFloat r => r
  | JStr s => json_dumps_str s
  | JList items =>
      lit "[" ++ join (lit ", ") (map json_dumps items) ++ lit "]"
  | JDict members =>
      lit "{"
      ++ join (lit ", ")
           (map (fun kv => json_dumps_str (fst kv) ++ lit ": " ++ json_dumps (snd kv))
                members)
      ++ lit "}"
  end.

(** ** Exceptions and effects *)

(** The exception classes the source names in a handler or that the
    functions it calls raise.  All of them derive from [Exception]. *)
Inductive exc_class :=
| TimeoutError
| JSONDecodeError
| UnicodeDecodeError
| FileNotFoundError
| IsADirectoryError
| OtherError (name : string).

(** An exception object: its class and what [str(e)] returns. *)
Record exc := Exc { exc_cls : exc_class; exc_text : str }.

Global Instance exc_class_eq_dec : EqDecision exc_class.
Proof. solve_decision. Defined.

(** What an operation of the outside world delivers: a value, or an
    exception (an instance of [Exception]). *)
Inductive outcome (A : Type) :=
| Ok (a : A)
| Fault (e : exc).
Arguments Ok {A} a.
Arguments Fault {A} e.

(** [b.decode()] *)
Definition decode (b : bytes) : outcome str :=
  match utf8_decode 0 (map Byte.to_N b) with
  | inl s => Ok s
  | inr e => Fault (Exc UnicodeDecodeError (decode_error_text b e))
  end.

(** What the code does to a child process. *)
Inductive action :=
| Spawn (cmd : list str) (env : option (gmap str str)) (merge_stderr : bool)
| ReadLine
| Communicate
| Wait
| Kill.

(** What can be observed of a coroutine or generator: the frames it yields
    and the actions it completed, in order. *)
Inductive item :=
| Yield (frame : str)
| Do (a : action).

(** How a block of code ends: normally, by an [Exception], or because the
    task was cancelled or the generator closed ([CancelledError] and
    [GeneratorExit] derive from [BaseException] only, so that
    [except Exception] lets them through). *)
Inductive result (A : Type) :=
| Ret (a : A)
| Raise (e : exc)
| Cancelled.
Arguments Ret {A} a.
Arguments Raise {A} e.
Arguments Cancelled {A}.

(** A dict object of the heap. *)
Abbreviation dictobj := (gmap str str).
Abbreviation loc := positive.

(** The state a coroutine runs in: [budget] is the number of suspension
    points (a [yield] or an [await]) the consumer lets it pass before
    abandoning it, [None] when it is driven to its end; [heap] holds the
    dict objects. *)
Record mstate := MState {
  budget : option nat;
  heap : gmap loc dictobj
}.

Definition prog (A : Type) : Type := mstate -> list item * (result A * mstate).

Global Instance prog_ret : MRet prog := fun A a s => ([], (Ret a, s)).

Global Instance prog_bind : MBind prog := fun A B f m s =>
  match m s with
  | (t1, (Ret a, s1)) => let '(t2, r) := f a s1 in (t1 ++ t2, r)
  | (t1, (Raise e, s1)) => (t1, (Raise e, s1))
  | (t1, (Cancelled, s1)) => (t1, (Cancelled, s1))
  end.

Definition emit (i : item) : prog unit := fun s => ([i], (Ret tt, s)).

Definition raise {A} (e : exc) : prog A := fun s => ([], (Raise e, s)).

Definition of_outcome {A} (o : outcome A) : prog A :=
  match o with
  | Ok a => mret a
  | Fault e => raise e
  end.

(** A suspension point: control returns here unless the consumer has gone. *)
Definition suspend : prog unit := fun s =>
  match budget s with
  | None => ([], (Ret tt, s))
  | Some (S n) => ([], (Ret tt, MState (Some n) (heap s)))
  | Some O => ([], (Cancelled, s))
  end.

(** [yield frame] *)
Definition yield (frame : str) : prog unit := emit (Yield frame) ;; suspend.

(** [await op], where the outside world answers [o]; the action is recorded
    when it completed. *)
Definition await {A} (a : action) (o : outcome A) : prog A :=
  suspend ;;
  match o with
  | Ok v => emit (Do a) ;; mret v
  | Fault e => raise e
  end.

(** A synchronous call that acts on the child. *)
Definition perform (a : action) : prog unit := emit (Do a).

(** [try: body except <classes matching catches>: handler] *)
Definition try_except {A} (body : prog A) (catches : exc -> bool)
    (handler : exc -> prog A) : prog A := fun s =>
  match body s with
  | (t1, (Raise e, s1)) =>
      if catches e then let '(t2, r) := handler e s1 in (t1 ++ t2, r)
      else (t1, (Raise e, s1))
  | other => other
  end.

(** [except Exception] *)
Definition any_Exception (e : exc) : bool := true.

(** [except cls] for one of the leaf classes above. *)
Definition of_class (c : exc_class) (e : exc) : bool := bool_decide (exc_cls e = c).

(** The frames a run yielded, and the actions it completed. *)
Fixpoint frames (t : list item) : list str :=
  match t with
  | [] => []
  | Yield f :: t' => f :: frames t'
  | Do _ :: t' => frames t'
  end.

Fixpoint actions (t : list item) : list action :=
  match t with
  | [] => []
  | Yield _ :: t' => actions t'
  | Do a :: t' => a :: actions t'
  end.

(** The state of the child after a sequence of actions. *)
Inductive child_state := NoChild | Running | Killed | Reaped.

Definition child_step (c : child_state) (a : action) : child_state :=
  match a, c with
  | Spawn _ _ _, _ => Running
  | ReadLine, _ => c
  | (Communicate | Wait), (Running | Killed) => Reaped
  | (Communicate | Wait), _ => c
  | Kill, Running => Killed
  | Kill, _ => c
  end.

Definition child_after (l : list action) : child_state :=
  fold_left child_step l NoChild.

(** A drained run: the consumer never leaves. *)
Definition drained (h : gmap loc dictobj) : mstate := MState None h.

(** ** The execution environment: [_build_ansible_env] *)

(** Where the dict behind [os.environ] lives. *)
Definition os_environ : loc := 1%positive.

Definition get_heap : prog (gmap loc dictobj) := fun s => ([], (Ret (heap s), s)).

Definition put_heap (h : gmap loc dictobj) : prog unit := fun s =>
  ([], (Ret tt, MState (budget s) h)).

(** The contents of the dict at [l]. *)
Definition dict_read (l : loc) : prog dictobj :=
  h ← get_heap; mret (default ∅ (h !! l)).

(** [d.copy()]: a new dict object with the same bindings. *)
Definition dict_copy (l : loc) : prog loc :=
  h ← get_heap;
  let l' := fresh (dom h) in
  put_heap (<[l' := default ∅ (h !! l)]> h);;
  mret l'.

(** What [setdefault(k, v)] leaves in a dict. *)
Definition with_default (k v : str) (d : dictobj) : dictobj :=
  match d !! k with
  | Some _ => d
  | None => <[k := v]> d
  end.

(** [d.setdefault(k, v)], in place. *)
Definition dict_setdefault (l : loc) (k v : str) : prog unit :=
  h ← get_heap;
  put_heap (alter (with_default k v) l h).

Definition _build_ansible_env : prog loc :=
  env ← dict_copy os_environ;
  dict_setdefault env (lit "ANSIBLE_FORCE_COLOR") (lit "0");;
  dict_setdefault env (lit "ANSIBLE_HOST_KEY_CHECKING") (lit "False");;
  mret env.

(** ** The bounded process runner: [run_ansible_command] *)

Definition DEFAULT_TIMEOUT : Z := 60.

(** What [communicate()] collects from a child that ran to its end. *)
Record captured := Captured {
  cap_stdout : bytes;
  cap_stderr : bytes;
  cap_returncode : Z
}.

(** What the outside world does during one call of the runner. *)
Record run_world := {
  (** whether [create_subprocess_exec] starts the child *)
  launched : outcome unit;
  (** what the child delivers if it ends within the bound; [None] when the
      bound elapses first *)
  completion : option captured;
  (** what the child had written when it was killed *)
  leftover : bytes * bytes
}.

(** [asyncio.wait_for(proc.communicate(), timeout)] *)
Definition wait_for_communicate (w : run_world) : prog captured :=
  match completion w with
  | Some c => await Communicate (Ok c)
  | None => suspend;; raise (Exc TimeoutError [])
  end.

Definition run_ansible_command (w : run_world) (cmd : list str) (timeout : Z)
    : prog json :=
  env ← _build_ansible_env;
  bindings ← dict_read env;
  await (Spawn cmd (Some bindings) false) (launched w);;
  try_except
    (c ← wait_for_communicate w;
     out ← of_outcome (decode (cap_stdout c));
     err ← of_outcome (decode (cap_stderr c));
     mret (JDict [(lit "stdout", JStr out);
                  (lit "stderr", JStr err);
                  (lit "returncode", JInt (cap_returncode c))]))
    (of_class TimeoutError)
    (fun _ =>
       perform Kill;;
       await Communicate (Ok (leftover w));;
       mret (JDict [(lit "stdout", JStr []);
                    (lit "stderr",
                     JStr (lit "Command timed out after " ++ str_of_int timeout
                           ++ lit "s"));
                    (lit "returncode", JNull);
                    (lit "timeout", JBool true)])).


(** *** The result as the specification describes it *)

(** [d.get(k)] on the members of a dict. *)
Fixpoint dict_get (k : str) (d : list (str * json)) : option json :=
  match d with
  | [] => None
  | (k', v) :: d' => if bool_decide (k' = k) then Some v else dict_get k d'
  end.

Record ExecutionResult := {
  stdout : str;
  stderr : str;
  exitCode : option Z;
  timedOut : bool
}.

(** The reading of a returned dict as an [ExecutionResult]: the keys
    [stdout], [stderr] and [returncode], and the optional [timeout] flag,
    which counts as false when the key is missing. *)
Definition as_ExecutionResult (j : json) : option ExecutionResult :=
  match j with
  | JDict d =>
      match dict_get (lit "stdout") d, dict_get (lit "stderr") d,
            dict_get (lit "returncode") d with
      | Some (JStr o), Some (JStr e), Some rc =>
          Some {| stdout := o;
                  stderr := e;
                  exitCode := match rc with JInt z => Some z | _ => None end;
                  timedOut := match dict_get (lit "timeout") d with
                              | Some (JBool b) => b
                              | _ => false
                              end |}
      | _, _, _ => None
      end
  | _ => None
  end.

(** ** [list_inventory] *)

Record inventory_world := {
  (** [os.path.exists] *)
  path_exists : str -> bool;
  (** what launching the command and collecting its output gives *)
  inventory_child : list str -> outcome captured
}.

(** [json_loads] is [json.loads]; it raises [JSONDecodeError] on a text
    that is not JSON. *)
Definition list_inventory (json_loads : str -> outcome json)
    (w : inventory_world) (inventory_file : str) : prog json :=
  if negb (path_exists w inventory_file) then
    mret (JDict [(lit "error",
                  JStr (lit "Inventory file not found: " ++ inventory_file))])
  else
    let cmd := [lit "ansible-inventory"; lit "-i"; inventory_file; lit "--list"] in
    c ← await (Spawn cmd None false) (inventory_child w cmd);
    await Communicate (Ok tt);;
    if negb (cap_returncode c =? 0)%Z then
      err ← of_outcome (decode (cap_stderr c));
      mret (JDict [(lit "stderr", JStr err);
                   (lit "returncode", JInt (cap_returncode c))])
    else
      try_except
        (out ← of_outcome (decode (cap_stdout c));
         of_outcome (json_loads out))
        (of_class JSONDecodeError)
        (fun _ =>
           out ← of_outcome (decode (cap_stdout c));
           mret (JDict [(lit "output", JStr out)])).

(** ** The streaming relay: [run_playbook] *)

Record PlaybookInput := {
  playbook : str;
  inventory : option str;
  extra_vars : option (list (str * json))
}.

(** A launched child as the relay sees it: what each successive read of a
    line of its merged output gives until the end of file, and what
    [wait()] leaves in [returncode]. *)
Record child := {
  reads : list (outcome bytes);
  exit_status : outcome Z
}.

(** What [create_subprocess_exec] does with a command. *)
Definition relay_world : Type := list str -> outcome child.

Definition start_frame : str :=
  lit "event: start" ++ [LF] ++ lit "data: Starting playbook execution..."
  ++ [LF; LF].

Definition data_frame (cleaned : str) : str :=
  lit "data: " ++ json_dumps_str cleaned ++ [LF; LF].

Definition complete_frame : str :=
  lit "event: complete" ++ [LF] ++ lit "data: SUCCESS" ++ [LF; LF].

Definition error_frame (message : str) : str :=
  lit "event: error" ++ [LF] ++ lit "data: " ++ message ++ [LF; LF].

Definition end_frame : str :=
  lit "event: end" ++ [LF] ++ lit "data: done" ++ [LF; LF].

(** [payload.inventory or "inventory.ini"] *)
Definition inventory_or_default (i : option str) : str :=
  match i with
  | None | Some [] => lit "inventory.ini"
  | Some s => s
  end.

(** The command line of [ansible-playbook]. *)
Definition playbook_cmd (payload : PlaybookInput) : list str :=
  let cmd := [lit "ansible-playbook"; playbook payload; lit "-i";
              inventory_or_default (inventory payload)] in
  match extra_vars payload with
  | None | Some [] => cmd
  | Some ev => cmd ++ [lit "--extra-vars"; json_dumps (JDict ev)]
  end.

(** [async for line in process.stdout: ...] *)
Fixpoint stdout_loop (rs : list (outcome bytes)) : prog unit :=
  match rs with
  | [] => suspend
  | r :: rest =>
      line ← await ReadLine r;
      text ← of_outcome (decode line);
      let cleaned := rstrip text in
      (if bool_decide (cleaned = []) then mret tt
       else yield (data_frame cleaned));;
      stdout_loop rest
  end.

Definition event_stream (w : relay_world) (payload : PlaybookInput) : prog unit :=
  yield start_frame;;
  try_except
    (let cmd := playbook_cmd payload in
     process ← await (Spawn cmd None true) (w cmd);
     stdout_loop (reads process);;
     returncode ← await Wait (exit_status process);
     if (returncode =? 0)%Z then yield complete_frame
     else yield (error_frame (lit "Return code " ++ str_of_int returncode)))
    any_Exception
    (fun e => yield (error_frame (exc_text e)));;
  yield end_frame.

(** *** The events on the wire *)

Inductive StreamEvent := Start | Data | Error | Complete | End.

Global Instance StreamEvent_eq_dec : EqDecision StreamEvent.
Proof. solve_decision. Defined.

(** [s.startswith(p)] *)
Fixpoint startswith (p s : str) : bool :=
  match p, s with
  | [], _ => true
  | a :: p', b :: s' => (a =? b) && startswith p' s'
  | _ :: _, [] => false
  end.

(** The kind of event a frame [event: <kind>\ndata: <payload>\n\n] carries;
    a frame that opens with [data:] is a [Data] event. *)
Definition event_kind (frame : str) : option StreamEvent :=
  if startswith (lit "event: start" ++ [LF]) frame then Some Start
  else if startswith (lit "event: error" ++ [LF]) frame then Some Error
  else if startswith (lit "event: complete" ++ [LF]) frame then Some Complete
  else if startswith (lit "event: end" ++ [LF]) frame then Some End
  else if startswith (lit "data: ") frame then Some Data
  else None.

(** How many frames of a stream carry an event of kind [k]. *)
Fixpoint count_kind (k : StreamEvent) (fs : list str) : nat :=
  match fs with
  | [] => 0
  | f :: fs' =>
      (if bool_decide (event_kind f = Some k) then 1 else 0)%nat
      + count_kind k fs'
  end%nat.

(** The frames of kind [k], in order. *)
Definition of_kind (k : StreamEvent) (fs : list str) : list str :=
  filter (fun f => event_kind f = Some k) fs.

(** *** What a drained stream holds *)

(** The frame a line of text gives, if any. *)
Definition line_frames (text : str) : list str :=
  if blank text then [] else [data_frame (rstrip text)].

(** The frames of the lines read before the first fault. *)
Fixpoint loop_frames (rs : list (outcome bytes)) : list str :=
  match rs with
  | Ok line :: rest =>
      match decode line with
      | Ok text => line_frames text ++ loop_frames rest
      | Fault _ => []
      end
  | _ => []
  end.

(** The first fault met while reading and decoding, if any. *)
Fixpoint loop_fault (rs : list (outcome bytes)) : option exc :=
  match rs with
  | [] => None
  | Fault e :: _ => Some e
  | Ok line :: rest =>
      match decode line with
      | Ok _ => loop_fault rest
      | Fault e => Some e
      end
  end.

(** The number of reads that delivered a line. *)
Fixpoint lines_read (rs : list (outcome bytes)) : nat :=
  match rs with
  | Ok line :: rest =>
      match decode line with
      | Ok _ => S (lines_read rest)
      | Fault _ => 1
      end
  | _ => 0
  end.

(** The first fault of an invocation: at the launch, while the output is
    read, or at the final wait. *)
Definition first_fault (w : relay_world) (payload : PlaybookInput) : option exc :=
  match w (playbook_cmd payload) with
  | Fault e => Some e
  | Ok c =>
      match loop_fault (reads c) with
      | Some e => Some e
      | None =>
          match exit_status c with
          | Fault e => Some e
          | Ok _ => None
          end
      end
  end.

(** The [Data] frames of an invocation. *)
Definition relayed (w : relay_world) (payload : PlaybookInput) : list str :=
  match w (playbook_cmd payload) with
  | Ok c => loop_frames (reads c)
  | Fault _ => []
  end.

(** The frame that reports how the child ended. *)
Definition exit_frame (returncode : Z) : str :=
  if (returncode =? 0)%Z then complete_frame
  else error_frame (lit "Return code " ++ str_of_int returncode).

(** The frame that closes an invocation before [End]. *)
Definition closing_frame (w : relay_world) (payload : PlaybookInput) : str :=
  match first_fault w payload with
  | Some e => error_frame (exc_text e)
  | None =>
      match w (playbook_cmd payload) with
      | Ok {| exit_status := Ok rc |} => exit_frame rc
      | _ => []
      end
  end.

(** ** [generate_playbook] and the file system *)

(** [p.rfind(c)] *)
Fixpoint rfind (c : N) (p : str) : Z :=
  match p with
  | [] => (-1)%Z
  | x :: p' =>
      let r := rfind c p' in
      if (0 <=? r)%Z then (r + 1)%Z
      else if x =? c then 0%Z
      else (-1)%Z
  end.

(** [posixpath.basename] *)
Definition basename (p : str) : str :=
  let i := (rfind SLASH p + 1)%Z in
  drop (Z.to_nat i) p.

(** [s.endswith('/')] *)
Definition ends_with_slash (s : str) : bool :=
  match last s with
  | Some c => c =? SLASH
  | None => false
  end.

(** [posixpath.join(a, b)] *)
Definition path_join (a b : str) : str :=
  if startswith [SLASH] b then b
  else if bool_decide (a = []) || ends_with_slash a then a ++ b
  else a ++ [SLASH] ++ b.

Definition PLAYBOOKS_DIR (BASE_DIR : str) : str :=
  path_join BASE_DIR (lit "playbooks").

(** A file system without links: the entry found at each normalized path,
    given by its components from the root.  The root itself is a
    directory. *)
Inductive node := Dir | File (content : str).

Global Instance node_eq_dec : EqDecision node.
Proof. solve_decision. Defined.

Abbreviation filesystem := (gmap (list str) node).

(** The directory reached from [st] by the component [comp]. *)
Definition enter (st : list str) (comp : str) : list str :=
  if bool_decide (comp = []) || bool_decide (comp = lit ".") then st
  else if bool_decide (comp = lit "..") then removelast st
  else st ++ [comp].

Fixpoint scan (st : list str) (cur : str) (p : str) : list str * str :=
  match p with
  | [] => (st, cur)
  | c :: p' =>
      if c =? SLASH then scan (enter st cur) [] p'
      else scan st (cur ++ [c]) p'
  end.

(** The entry a path names, walking from the root. *)
Definition resolve (p : str) : list str :=
  let '(st, cur) := scan [] [] p in enter st cur.

Definition is_dir (fs : filesystem) (q : list str) : bool :=
  bool_decide (q = []) ||
  match fs !! q with
  | Some Dir => true
  | _ => false
  end.

(** [os.makedirs(p, exist_ok=True)], one component after the other below
    the directory [at_]. *)
Fixpoint makedirs_below (fs : filesystem) (at_ : list str) (todo : list str)
    : result unit * filesystem :=
  match todo with
  | [] => (Ret tt, fs)
  | c :: todo' =>
      let d := at_ ++ [c] in
      match fs !! d with
      | Some (File _) =>
          (Raise (Exc (OtherError "FileExistsError") (lit "[Errno 17] File exists")),
           fs)
      | Some Dir => makedirs_below fs d todo'
      | None => makedirs_below (<[d := Dir]> fs) d todo'
      end
  end.

Definition makedirs (fs : filesystem) (p : str) : result unit * filesystem :=
  makedirs_below fs [] (resolve p).

(** [open(target, "w")] followed by [write(data)]. *)
Definition write_file (fs : filesystem) (target data : str)
    : result unit * filesystem :=
  let q := resolve target in
  if is_dir fs q then
    (Raise (Exc IsADirectoryError (lit "[Errno 21] Is a directory")), fs)
  else if is_dir fs (removelast q) then (Ret tt, <[q := File data]> fs)
  else (Raise (Exc FileNotFoundError (lit "[Errno 2] No such file or directory")),
        fs).

Definition generate_playbook (BASE_DIR : str) (fs : filesystem)
    (file_name data : str) : result json * filesystem :=
  let sanitized_name := basename (strip file_name) in
  if bool_decide (sanitized_name = []) then
    (Ret (JDict [(lit "error", JStr (lit "file_name must be provided"))]), fs)
  else
    match makedirs fs (PLAYBOOKS_DIR BASE_DIR) with
    | (Ret _, fs1) =>
        let target_path := path_join (PLAYBOOKS_DIR BASE_DIR) sanitized_name in
        match write_file fs1 target_path data with
        | (Ret _, fs2) =>
            (Ret (JDict [(lit "status", JStr (lit "written"));
                         (lit "path", JStr target_path)]), fs2)
        | (Raise e, fs2) => (Raise e, fs2)
        | (Cancelled, fs2) => (Cancelled, fs2)
        end
    | (Raise e, fs1) => (Raise e, fs1)
    | (Cancelled, fs1) => (Cancelled, fs1)
    end.

(** ** Specification-side names *)

(** The execution environment as a function of the ambient one. *)
Definition ansible_env (ambient : dictobj) : dictobj :=
  with_default (lit "ANSIBLE_HOST_KEY_CHECKING") (lit "False")
    (with_default (lit "ANSIBLE_FORCE_COLOR") (lit "0") ambient).


(** The dict the runner returns after a timeout. *)
Definition timeout_result (timeout : Z) : json :=
  JDict [(lit "stdout", JStr []);
         (lit "stderr",
          JStr (lit "Command timed out after " ++ str_of_int timeout ++ lit "s"));
         (lit "returncode", JNull);
         (lit "timeout", JBool true)].

(** The command line of [list_inventory]. *)
Definition inventory_cmd (inventory_file : str) : list str :=
  [lit "ansible-inventory"; lit "-i"; inventory_file; lit "--list"].

(** ** What a coroutine does to its child *)

(** The actions the relay is made of. *)
Definition relay_action (a : action) : Prop :=
  match a with
  | Spawn _ _ _ | ReadLine | Wait => True
  | Communicate | Kill => False
  end.

(** Every action of [m], in any state, satisfies [P]. *)
Definition acts (P : action -> Prop) {A} (m : prog A) : Prop :=
  forall s, Forall P (actions (m s).1).

(** An abandoned run of [m] does an initial part of what the drained run
    does, and a drained run is never cancelled. *)
Definition abandonable {A} (m : prog A) : Prop :=
  forall n h,
    let short := m (MState (Some n) h) in
    let full := m (MState None h) in
    full.2.1 <> Cancelled /\ budget full.2.2 = None
    /\ ((short.2.1 = Cancelled /\ short.1 `prefix_of` full.1)
        \/ (short.1 = full.1 /\ short.2.1 = full.2.1
            /\ heap short.2.2 = heap full.2.2
            /\ is_Some (budget short.2.2))).

Definition is_spawn (a : action) : bool :=
  match a with
  | Spawn _ _ _ => true
  | _ => false
  end.

Definition is_wait (a : action) : bool :=
  match a with
  | Wait => true
  | _ => false
  end.

(** ** The claims as the specification words them, where the code departs *)

(** A line is blank when it decodes to a blank text. *)
Definition blank_line (l : bytes) : bool :=
  match decode l with
  | Ok t => blank t
  | Fault _ => false
  end.

(** "N non-empty lines give exactly N [Data] events", for every output. *)
Definition every_line_relayed : Prop :=
  forall (w : relay_world) payload h c (lines : list bytes),
    w (playbook_cmd payload) = Ok c ->
    reads c = map Ok lines ->
    count_kind Data (frames (event_stream w payload (drained h)).1)
    = length (filter (fun l => blank_line l = false) lines).

(** "A child is never left running after the stream is abandoned." *)
Definition abandoned_child_terminated : Prop :=
  forall (w : relay_world) payload n h,
    let run := event_stream w payload (MState (Some n) h) in
    run.2.1 = Cancelled ->
    child_after (actions run.1) <> Running.

(** "Every command that ends within the bound gives a result." *)
Definition runner_always_returns : Prop :=
  forall cmd timeout c lo h,
    exists j r,
      (run_ansible_command
         {| launched := Ok tt; completion := Some c; leftover := lo |}
         cmd timeout (drained h)).2.1 = Ret j
      /\ as_ExecutionResult j = Some r
      /\ exitCode r = Some (cap_returncode c)
      /\ timedOut r = false.

(** "[list_inventory] never raises to the caller." *)
Definition list_inventory_never_raises : Prop :=
  forall json_loads w inventory_file h,
    exists j,
      (list_inventory json_loads w inventory_file (drained h)).2.1 = Ret j.

(** ** Sample inputs *)

Definition site_payload : PlaybookInput :=
  {| playbook := lit "site.yml"; inventory := None; extra_vars := None |}.

(** A play that prints two lines around an empty one and succeeds. *)
Definition quiet_play : child :=
  {| reads := [Ok (blit "PLAY [all]" ++ [x0a]); Ok [x0a];
               Ok (blit "ok: [web1]" ++ [x0a])];
     exit_status := Ok 0%Z |}.

(** A play whose only line is not UTF-8. *)
Definition binary_play : child :=
  {| reads := [Ok [xff; x0a]]; exit_status := Ok 0%Z |}.

(** A play that fails with status 2. *)
Definition failed_play : child :=
  {| reads := [Ok (blit "fatal: [web1]: UNREACHABLE!" ++ [x0a])];
     exit_status := Ok 2%Z |}.

Definition always (c : child) : relay_world := fun _ => Ok c.

(** [ansible-playbook] is not installed. *)
Definition no_executable : relay_world := fun _ =>
  Fault (Exc FileNotFoundError
           (lit "[Errno 2] No such file or directory: 'ansible-playbook'")).

(** ** The other tools *)

(** The tools below run one command and collect its output; what the
    outside world does for them is an [inventory_world]: [path_exists] and,
    for a command line, the fault of the launch or what [communicate()]
    collects. *)

(** [s.splitlines()]: the line boundaries of Python, a carriage return
    followed by a line feed counting as one. *)
Definition is_linebreak (c : N) : bool :=
  ((0x0A <=? c) && (c <=? 0x0D)) || ((0x1C <=? c) && (c <=? 0x1E))
  || (c =? 0x85) || (c =? 0x2028) || (c =? 0x2029).

Fixpoint splitlines_from (cur : str) (s : str) : list str :=
  match s with
  | [] => if bool_decide (cur = []) then [] else [cur]
  | c :: s' =>
      if c =? 0x0D then
        match s' with
        | c' :: s'' =>
            if c' =? 0x0A then cur :: splitlines_from [] s''
            else cur :: splitlines_from [] s'
        | [] => cur :: splitlines_from [] s'
        end
      else if is_linebreak c then cur :: splitlines_from [] s'
      else splitlines_from (cur ++ [c]) s'
  end.

Definition splitlines (s : str) : list str := splitlines_from [] s.

(** [list_hosts] does not look for the inventory file first. *)
Definition list_hosts (w : inventory_world) (inventory_file : str) : prog json :=
  let cmd := [lit "ansible"; lit "all"; lit "-i"; inventory_file;
              lit "--list-hosts"] in
  c ← await (Spawn cmd None false) (inventory_child w cmd);
  await Communicate (Ok tt);;
  out ← of_outcome (decode (cap_stdout c));
  err ← of_outcome (decode (cap_stderr c));
  mret (JDict [(lit "stdout", JStr out);
               (lit "stderr", JStr err);
               (lit "returncode", JInt (cap_returncode c))]).

Definition validate_playbook (w : inventory_world) (playbook : str) : prog json :=
  if negb (path_exists w playbook) then
    mret (JDict [(lit "error", JStr (lit "Playbook not found: " ++ playbook))])
  else
    let cmd := [lit "ansible-playbook"; playbook; lit "--syntax-check";
                lit "-i"; lit "inventory.ini"] in
    c ← await (Spawn cmd None false) (inventory_child w cmd);
    await Communicate (Ok tt);;
    out ← of_outcome (decode (cap_stdout c));
    err ← of_outcome (decode (cap_stderr c));
    mret (JDict [(lit "stdout", JStr out);
                 (lit "stderr", JStr err);
                 (lit "returncode", JInt (cap_returncode c))]).

(** [AdHocInput]: [inventory] is optional and may be given as null. *)
Record AdHocInput := {
  adhoc_host : str;
  adhoc_module : str;
  adhoc_args : str;
  adhoc_inventory : option str
}.

(** An argument list that holds [None] is refused when the child is to be
    started: the launch raises [TypeError] and there is no child. *)
Definition run_ad_hoc (w : inventory_world) (input : AdHocInput) : prog json :=
  match adhoc_inventory input with
  | None =>
      suspend;;
      raise (Exc (OtherError "TypeError")
               (lit "expected str, bytes or os.PathLike object, not NoneType"))
  | Some inventory_file =>
      let cmd := [lit "ansible"; adhoc_host input;
                  lit "-m"; adhoc_module input;
                  lit "-a"; adhoc_args input;
                  lit "-i"; inventory_file] in
      c ← await (Spawn cmd None false) (inventory_child w cmd);
      await Communicate (Ok tt);;
      out ← of_outcome (decode (cap_stdout c));
      err ← of_outcome (decode (cap_stderr c));
      mret (JDict [(lit "stdout", JStr out);
                   (lit "stderr", JStr err);
                   (lit "returncode", JInt (cap_returncode c))])
  end.

(** [xs[0]] *)
Definition first_item (xs : list str) : prog str :=
  match xs with
  | x :: _ => mret x
  | [] => raise (Exc (OtherError "IndexError") (lit "list index out of range"))
  end.

Definition get_ansible_version (w : inventory_world) : prog json :=
  let cmd := [lit "ansible"; lit "--version"] in
  c ← await (Spawn cmd None false) (inventory_child w cmd);
  await Communicate (Ok tt);;
  first_line ←
    (if bool_decide (cap_stdout c = []) then mret []
     else
       text ← of_outcome (decode (cap_stdout c));
       first_item (splitlines text));
  mret (JDict [(lit "version", JStr first_line)]).

(** ** Further notions for the properties *)

(** A printable ASCII character. *)
Definition printable (c : N) : bool := (32 <=? c) && (c <=? 126).

(** Every frame that [m] yields, in any state, satisfies [P]. *)
Definition yields (P : str -> Prop) {A} (m : prog A) : Prop :=
  forall s, Forall P (frames (m s).1).


(** The dict of a collected run. *)
Definition collected_result (out err : str) (rc : Z) : json :=
  JDict [(lit "stdout", JStr out);
         (lit "stderr", JStr err);
         (lit "returncode", JInt rc)].

(** An action of a tool that inherits the environment of the server and
    does not kill. *)
Definition plain_action (a : action) : Prop :=
  match a with
  | Spawn _ env _ => env = None
  | Kill => False
  | _ => True
  end.

(** A Unicode scalar value: a code point that is not a surrogate. *)
Definition scalar (c : N) : bool :=
  (c <? 0xD800) || ((0xE000 <=? c) && (c <? 0x110000)).

(** How a JSON reader reads the first character of the inside of a string:
    an escape with a backslash, a pair of [\u] escapes for a character
    beyond the basic plane, or the character itself.  It is the reading
    that [json_escape] is written for. *)
Definition unhex (d : N) : N := if d <? 58 then d - 48 else d - 87.

Definition unhex4 (a b c d : N) : N :=
  ((unhex a * 16 + unhex b) * 16 + unhex c) * 16 + unhex d.

Definition unescape_letter (x : N) : N :=
  if x =? 110 then 10
  else if x =? 114 then 13
  else if x =? 116 then 9
  else if x =? 98 then 8
  else if x =? 102 then 12
  else x.

Definition json_read_char (s : str) : option (N * str) :=
  match s with
  | [] => None
  | c :: rest =>
      if c =? BACKSLASH then
        match rest with
        | [] => None
        | x :: rest1 =>
            if x =? 117 then
              match rest1 with
              | h1 :: h2 :: h3 :: h4 :: rest2 =>
                  let n := unhex4 h1 h2 h3 h4 in
                  if (0xD800 <=? n) && (n <? 0xDC00) then
                    match rest2 with
                    | b :: u :: l1 :: l2 :: l3 :: l4 :: rest3 =>
                        Some (0x10000 + (n - 0xD800) * 1024
                              + (unhex4 l1 l2 l3 l4 - 0xDC00), rest3)
                    | _ => None
                    end
                  else Some (n, rest2)
              | _ => None
              end
            else Some (unescape_letter x, rest1)
        end
      else Some (c, rest)
  end.

(** * Properties *)

(** Runs a coroutine whose inputs are known. *)
Ltac run_prog :=
  repeat (progress
    (unfold await, yield, perform, suspend, emit, raise, of_outcome,
       try_except, dict_read, get_heap, put_heap, mbind, mret, prog_bind,
       prog_ret, drained;
     cbn [heap budget app fst snd negb])). 

(** ** Text *)

Lemma rstrip_nil_blank (s : str) : rstrip s = [] <-> blank s = true.
Proof.
  induction s as [|c s IH]; simpl; [done|].
  destruct (rstrip s) as [|x t] eqn:E.
  - destruct IH as [IH _]. rewrite (IH eq_refl), andb_true_r.
    destruct (isspace c); split; congruence.
  - split; [congruence|]. intros [_ Hb]%andb_true_iff.
    destruct IH as [_ IH]. discriminate (IH Hb).
Qed.

(** Decimal printing of an [int] can be read back. *)
Lemma lit_inj (a b : string) : lit a = lit b -> a = b.
Proof.
  revert b. induction a as [|x a IH]; intros [|y b] H; simpl in H; try discriminate.
  - reflexivity.
  - injection H as Hx Hab. f_equal.
    + rewrite <- (ascii_N_embedding x), <- (ascii_N_embedding y). by rewrite Hx.
    + by apply IH.
Qed.

Lemma to_int_shape (z : Z) :
  Z.to_int z <> Decimal.Pos Decimal.Nil /\ Z.to_int z <> Decimal.Neg Decimal.Nil.
Proof.
  destruct z as [|p|p]; simpl; split; try discriminate;
    intros [= H]; by apply (Unsigned.to_uint_nonnil p).
Qed.

Lemma str_of_int_inj (a b : Z) : str_of_int a = str_of_int b -> a = b.
Proof.
  unfold str_of_int. intros H%lit_inj.
  apply to_int_inj.
  destruct (to_int_shape a) as [Ha1 Ha2], (to_int_shape b) as [Hb1 Hb2].
  pose proof (NilZero.isi _ Ha1 Ha2) as Ia.
  pose proof (NilZero.isi _ Hb1 Hb2) as Ib.
  rewrite H in Ia. rewrite Ia in Ib. by injection Ib.
Qed.

(** ** Traces and event kinds *)

Lemma frames_app (a b : list item) : frames (a ++ b) = frames a ++ frames b.
Proof. induction a as [|[f|x] a IH]; simpl; by rewrite ?IH. Qed.

Lemma actions_app (a b : list item) : actions (a ++ b) = actions a ++ actions b.
Proof. induction a as [|[f|x] a IH]; simpl; by rewrite ?IH. Qed.

Lemma event_kind_start : event_kind start_frame = Some Start.
Proof. reflexivity. Qed.

Lemma event_kind_end : event_kind end_frame = Some End.
Proof. reflexivity. Qed.

Lemma event_kind_complete : event_kind complete_frame = Some Complete.
Proof. reflexivity. Qed.

Lemma event_kind_data c : event_kind (data_frame c) = Some Data.
Proof. reflexivity. Qed.

Lemma event_kind_error m : event_kind (error_frame m) = Some Error.
Proof. reflexivity. Qed.

Lemma count_kind_app k (a b : list str) :
  count_kind k (a ++ b) = (count_kind k a + count_kind k b)%nat.
Proof. induction a as [|f a IH]; simpl; [done|]. rewrite IH. lia. Qed.

(** ** The relay, driven to its end *)

(** The loop over the output never ends in cancellation when the stream is
    drained: it stops at the first fault or at the end of the output. *)
Lemma stdout_loop_drained rs h :
  exists t,
    stdout_loop rs (drained h)
    = (t, (match loop_fault rs with Some e => Raise e | None => Ret tt end,
           drained h))
    /\ frames t = loop_frames rs
    /\ actions t = repeat ReadLine (lines_read rs).
Proof.
  induction rs as [|r rs IH].
  - exists []. done.
  - destruct IH as (t & Hrun & Hf & Ha).
    destruct r as [line|e].
    + simpl. unfold mbind, prog_bind. simpl.
      destruct (decode line) as [text|e] eqn:Hd; simpl.
      * unfold line_frames.
        case_bool_decide as Hc.
        -- apply rstrip_nil_blank in Hc. rewrite Hc. simpl. rewrite Hrun.
           eexists. split; [reflexivity|]. simpl. by rewrite Hf, Ha.
        -- rewrite rstrip_nil_blank in Hc. apply not_true_is_false in Hc.
           rewrite Hc. simpl. rewrite Hrun.
           eexists. split; [reflexivity|]. simpl. by rewrite Hf, Ha.
      * eexists. split; [reflexivity|]. done.
    + simpl. eexists. split; [reflexivity|]. done.
Qed.

(** The generator ends normally whatever happened, and its frames are the
    start frame, the data of the lines read, one closing frame and the end
    frame. *)
Lemma event_stream_drained w payload h :
  exists t,
    event_stream w payload (drained h) = (t, (Ret tt, drained h))
    /\ frames t
       = start_frame :: relayed w payload
         ++ [closing_frame w payload; end_frame].
Proof.
  unfold event_stream, relayed, closing_frame, first_fault.
  unfold mbind at 1 2. unfold prog_bind. simpl.
  unfold try_except, mbind, prog_bind. simpl.
  destruct (w (playbook_cmd payload)) as [c|e]; simpl.
  - destruct (stdout_loop_drained (reads c) h) as (t & -> & Hf & _).
    destruct (loop_fault (reads c)) as [e|]; simpl.
    + eexists. split; [reflexivity|]. simpl.
      rewrite !frames_app, Hf. simpl. by rewrite ?app_nil_r, <- ?app_assoc.
    + destruct c as [rs [rc|e]]; simpl in *.
      * unfold exit_frame. destruct (rc =? 0)%Z; simpl;
          (eexists; split; [reflexivity|]); simpl;
          rewrite !frames_app, Hf; simpl; by rewrite ?app_nil_r, <- ?app_assoc.
      * eexists; split; [reflexivity|]. simpl.
        rewrite !frames_app, Hf. simpl. by rewrite ?app_nil_r, <- ?app_assoc.
  - eexists. split; [reflexivity|]. done.
Qed.

Lemma loop_frames_data rs :
  Forall (fun f => event_kind f = Some Data) (loop_frames rs).
Proof.
  induction rs as [|[line|e] rs IH]; simpl; try by constructor.
  destruct (decode line) as [text|e]; [|by constructor].
  unfold line_frames. destruct (blank text); simpl; [done|].
  constructor; [apply event_kind_data | done].
Qed.

Lemma count_kind_uniform k k' (fs : list str) :
  Forall (fun f => event_kind f = Some k') fs ->
  count_kind k fs = if bool_decide (k' = k) then length fs else 0%nat.
Proof.
  induction 1 as [|f fs Hf _ IH]; simpl.
  - by destruct (bool_decide _).
  - rewrite IH, Hf.
    destruct (bool_decide (k' = k)) eqn:E.
    + apply bool_decide_eq_true in E. subst. by rewrite bool_decide_eq_true_2.
    + apply bool_decide_eq_false in E. rewrite bool_decide_eq_false_2; [done|congruence].
Qed.

Lemma relayed_data w payload :
  Forall (fun f => event_kind f = Some Data) (relayed w payload).
Proof.
  unfold relayed. destruct (w _); [apply loop_frames_data | constructor].
Qed.

Lemma closing_frame_kind w payload :
  event_kind (closing_frame w payload) = Some Complete
  \/ event_kind (closing_frame w payload) = Some Error.
Proof.
  unfold closing_frame, first_fault.
  destruct (w _) as [[rs [rc|e]]|e]; simpl;
    try destruct (loop_fault rs); auto using event_kind_error.
  unfold exit_frame. destruct (rc =? 0)%Z; auto using event_kind_error.
Qed.

Lemma last_two {A} (a c d : A) (b : list A) :
  last (a :: b ++ [c; d]) = Some d.
Proof.
  change (b ++ [c; d]) with (b ++ [c] ++ [d]).
  by rewrite app_assoc, app_comm_cons, last_snoc.
Qed.

(** C1.  Whatever the outside world does (success, non-zero exit, a fault
    at the launch, while reading or at the wait), a drained stream ends
    normally, starts with the one [Start] frame, ends with the one [End]
    frame, and holds at most one [Complete] or [Error] frame. *)
Theorem relay_event_sequence (w : relay_world) (payload : PlaybookInput)
    (h : gmap loc dictobj) :
  let run := event_stream w payload (drained h) in
  let fs := frames run.1 in
  run.2.1 = Ret tt
  /\ head fs = Some start_frame /\ count_kind Start fs = 1%nat
  /\ last fs = Some end_frame /\ count_kind End fs = 1%nat
  /\ (count_kind Complete fs + count_kind Error fs <= 1)%nat.
Proof.
  intros run fs. subst fs run.
  destruct (event_stream_drained w payload h) as (t & Hrun & Hf).
  rewrite Hrun. simpl. rewrite Hf. clear Hrun Hf. simpl.
  pose proof (relayed_data w payload) as Hd.
  rewrite !count_kind_app, !(count_kind_uniform _ Data _ Hd). simpl.
  pose proof (closing_frame_kind w payload) as [Hk | Hk]; rewrite Hk;
    repeat split; simpl; try lia; apply last_two.
Qed.

Lemma of_kind_app k (a b : list str) : of_kind k (a ++ b) = of_kind k a ++ of_kind k b.
Proof. apply filter_app. Qed.

Lemma of_kind_uniform k (fs : list str) :
  Forall (fun f => event_kind f = Some k) fs -> of_kind k fs = fs.
Proof.
  induction 1 as [|f fs Hf _ IH]; [done|].
  unfold of_kind in *. by rewrite filter_cons_True, IH.
Qed.

Lemma of_kind_other k (f : str) :
  event_kind f <> Some k -> of_kind k [f] = [].
Proof. intros H. unfold of_kind. by rewrite filter_cons_False. Qed.

Lemma closing_frame_not_data w payload :
  event_kind (closing_frame w payload) <> Some Data.
Proof. destruct (closing_frame_kind w payload) as [-> | ->]; done. Qed.

(* decoded lines *)
Lemma loop_all_decoded (lines : list bytes) (texts : list str) :
  Forall2 (fun l t => decode l = Ok t) lines texts ->
  loop_fault (map Ok lines) = None
  /\ loop_frames (map Ok lines)
     = map (fun t => data_frame (rstrip t)) (filter (fun t => blank t = false) texts).
Proof.
  induction 1 as [|l t lines texts Hd _ [IHf IHl]]; simpl; [done|].
  rewrite Hd, IHf, IHl. split; [done|].
  unfold line_frames. destruct (blank t) eqn:Hb.
  - by rewrite filter_cons_False by congruence.
  - by rewrite filter_cons_True.
Qed.

(** C5, as amended.  When every line the child writes decodes as UTF-8,
    the [Data] frames of a drained stream are exactly the frames of the
    lines that are not blank, in the order of the lines, each carrying its
    text with the trailing whitespace removed; blank lines give none. *)
Theorem relay_data_events (w : relay_world) (payload : PlaybookInput)
    (h : gmap loc dictobj) (c : child) (lines : list bytes) (texts : list str) :
  w (playbook_cmd payload) = Ok c ->
  reads c = map Ok lines ->
  Forall2 (fun l t => decode l = Ok t) lines texts ->
  let fs := frames (event_stream w payload (drained h)).1 in
  let spoken := filter (fun t => blank t = false) texts in
  of_kind Data fs = map (fun t => data_frame (rstrip t)) spoken
  /\ count_kind Data fs = length spoken.
Proof.
  intros Hw Hr Hl fs spoken. subst fs spoken.
  destruct (event_stream_drained w payload h) as (t & Hrun & Hf).
  rewrite Hrun. simpl. rewrite Hf. clear Hrun Hf.
  pose proof (relayed_data w payload) as Hd.
  pose proof (closing_frame_not_data w payload) as Hc.
  assert (relayed w payload
          = map (fun t => data_frame (rstrip t))
                (filter (fun t => blank t = false) texts)) as Hrel.
  { unfold relayed. rewrite Hw, Hr. by apply loop_all_decoded. }
  split.
  - change (start_frame :: ?l) with ([start_frame] ++ l).
    change [closing_frame w payload; end_frame]
      with ([closing_frame w payload] ++ [end_frame]).
    rewrite !of_kind_app, (of_kind_uniform _ _ Hd), (of_kind_other _ _ Hc).
    rewrite !of_kind_other by done. simpl. by rewrite app_nil_r.
  - simpl. rewrite count_kind_app, (count_kind_uniform _ Data _ Hd). simpl.
    rewrite bool_decide_eq_false_2 by done.
    rewrite Hrel, length_map. lia.
Qed.

(** C6.  When the child was launched, every line was read and decoded and
    the wait returned, the stream is the start frame, the data frames, one
    terminal frame and the end frame; the terminal frame is the [Complete]
    frame for status zero and otherwise the [Error] frame whose data line
    reads [Return code] followed by the status in decimal. *)
Theorem relay_terminal_after_exit (w : relay_world) (payload : PlaybookInput)
    (h : gmap loc dictobj) (c : child) (rc : Z) :
  w (playbook_cmd payload) = Ok c ->
  loop_fault (reads c) = None ->
  exit_status c = Ok rc ->
  let fs := frames (event_stream w payload (drained h)).1 in
  fs = start_frame :: loop_frames (reads c)
       ++ [if (rc =? 0)%Z
           then lit "event: complete" ++ [LF] ++ lit "data: SUCCESS" ++ [LF; LF]
           else lit "event: error" ++ [LF] ++ lit "data: Return code "
                ++ str_of_int rc ++ [LF; LF];
           lit "event: end" ++ [LF] ++ lit "data: done" ++ [LF; LF]]
  /\ count_kind Complete fs = (if (rc =? 0)%Z then 1 else 0)%nat
  /\ count_kind Error fs = (if (rc =? 0)%Z then 0 else 1)%nat
  /\ (forall rc' : Z, str_of_int rc' = str_of_int rc -> rc' = rc).
Proof.
  intros Hw Hl Hx fs. subst fs.
  destruct (event_stream_drained w payload h) as (t & Hrun & Hf).
  rewrite Hrun. simpl. rewrite Hf. clear Hrun Hf.
  pose proof (loop_frames_data (reads c)) as Hd.
  unfold relayed, closing_frame, first_fault. rewrite Hw, Hl.
  destruct c as [rs x]. simpl in *. subst x. unfold exit_frame.
  split; [by destruct (rc =? 0)%Z|].
  split; [|split; [|intros rc'; apply str_of_int_inj]].
  - simpl. rewrite !count_kind_app, !(count_kind_uniform _ Data _ Hd). simpl.
    destruct (rc =? 0)%Z; done.
  - simpl. rewrite !count_kind_app, !(count_kind_uniform _ Data _ Hd). simpl.
    destruct (rc =? 0)%Z; done.
Qed.

(** C7.  When the launch, a read, a decoding or the wait raises, the
    generator still ends normally: after the [Data] frames of the lines
    read so far it yields one [Error] frame, whose data line is the text of
    the exception, and then the [End] frame, and no [Complete] frame; a
    fault at the launch gives [Start], [Error], [End]. *)
Theorem relay_fault_reported (w : relay_world) (payload : PlaybookInput)
    (h : gmap loc dictobj) (cls : exc_class) (description : str) :
  first_fault w payload = Some (Exc cls description) ->
  let run := event_stream w payload (drained h) in
  let fs := frames run.1 in
  let reported :=
    lit "event: error" ++ [LF] ++ lit "data: " ++ description ++ [LF; LF] in
  run.2.1 = Ret tt
  /\ fs = start_frame :: relayed w payload
          ++ [reported; lit "event: end" ++ [LF] ++ lit "data: done" ++ [LF; LF]]
  /\ Forall (fun f => event_kind f = Some Data) (relayed w payload)
  /\ count_kind Complete fs = 0%nat
  /\ count_kind Error fs = 1%nat
  /\ (w (playbook_cmd payload) = Fault (Exc cls description) ->
      fs = [lit "event: start" ++ [LF]
            ++ lit "data: Starting playbook execution..." ++ [LF; LF];
            reported;
            lit "event: end" ++ [LF] ++ lit "data: done" ++ [LF; LF]]).
Proof.
  intros He run fs reported. subst fs run reported.
  destruct (event_stream_drained w payload h) as (t & Hrun & Hf).
  rewrite Hrun. simpl. rewrite Hf. clear Hrun Hf.
  pose proof (relayed_data w payload) as Hd.
  unfold closing_frame. rewrite He.
  repeat split; [done | | |].
  - simpl. by rewrite !count_kind_app, !(count_kind_uniform _ Data _ Hd).
  - simpl. by rewrite !count_kind_app, !(count_kind_uniform _ Data _ Hd).
  - intros Hw. unfold relayed. by rewrite Hw.
Qed.

(** ** The relay, abandoned *)

Section Acts.
Context (P : action -> Prop).

Lemma acts_ret {A} (a : A) : acts P (mret a).
Proof. intros s. constructor. Qed.

Lemma acts_bind {A B} (m : prog A) (f : A -> prog B) :
  acts P m -> (forall a, acts P (f a)) -> acts P (m ≫= f).
Proof.
  intros Hm Hf s. unfold mbind, prog_bind.
  specialize (Hm s). destruct (m s) as [t1 [[a|e|] s1]]; simpl in *; try done.
  specialize (Hf a s1). destruct (f a s1) as [t2 r]. simpl in *.
  rewrite actions_app. by apply Forall_app.
Qed.

Lemma acts_suspend : acts P suspend.
Proof. intros [[[|n]|] h]; constructor. Qed.

Lemma acts_raise {A} e : acts P (@raise A e).
Proof. intros s. constructor. Qed.

Lemma acts_of_outcome {A} (o : outcome A) : acts P (of_outcome o).
Proof. destruct o; [apply acts_ret | apply acts_raise]. Qed.

Lemma acts_yield f : acts P (yield f).
Proof.
  apply acts_bind; [|intros; apply acts_suspend].
  intros s. constructor.
Qed.

Lemma acts_await {A} a (o : outcome A) : P a -> acts P (await a o).
Proof.
  intros Ha. apply acts_bind; [apply acts_suspend|]. intros _.
  destruct o; [|apply acts_raise].
  apply acts_bind; [|intros; apply acts_ret].
  intros s. simpl. by repeat constructor.
Qed.

Lemma acts_try {A} (body : prog A) catches handler :
  acts P body -> (forall e, acts P (handler e)) ->
  acts P (try_except body catches handler).
Proof.
  intros Hb Hh s. unfold try_except.
  specialize (Hb s). destruct (body s) as [t1 [[a|e|] s1]]; simpl in *; try done.
  destruct (catches e); [|done].
  specialize (Hh e s1). destruct (handler e s1) as [t2 r]. simpl in *.
  rewrite actions_app. by apply Forall_app.
Qed.
End Acts.

Lemma stdout_loop_acts rs : acts relay_action (stdout_loop rs).
Proof.
  induction rs as [|r rs IH]; simpl; [apply acts_suspend|].
  apply acts_bind; [by apply acts_await|]. intros line.
  apply acts_bind; [apply acts_of_outcome|]. intros text.
  apply acts_bind; [|done].
  case_bool_decide; [apply acts_ret | apply acts_yield].
Qed.

Lemma event_stream_acts w payload : acts relay_action (event_stream w payload).
Proof.
  unfold event_stream.
  apply acts_bind; [apply acts_yield|]. intros _.
  apply acts_bind; [|intros; apply acts_yield].
  apply acts_try; [|intros; apply acts_yield].
  apply acts_bind; [by apply acts_await|]. intros process.
  apply acts_bind; [apply stdout_loop_acts|]. intros _.
  apply acts_bind; [by apply acts_await|]. intros rc.
  destruct (rc =? 0)%Z; apply acts_yield.
Qed.


Lemma child_step_quiet (l : list action) (c : child_state) :
  Forall relay_action l -> existsb is_wait l = false ->
  fold_left child_step l c = if existsb is_spawn l then Running else c.
Proof.
  revert c. induction l as [|a l IH]; intros c Hall Hw; [done|].
  inversion_clear Hall as [|? ? Ha Hl].
  simpl in Hw. apply orb_false_iff in Hw as [Hne Hw].
  simpl. rewrite (IH _ Hl Hw).
  destruct a; simpl in *; try done.
  by destruct (existsb is_spawn l).
Qed.

Lemma abandonable_ret {A} (a : A) : abandonable (mret a).
Proof. intros n h. simpl. repeat split; [done|]. right. by eauto. Qed.

Lemma abandonable_raise {A} e : abandonable (@raise A e).
Proof. intros n h. simpl. repeat split; [done|]. right. by eauto. Qed.

Lemma abandonable_emit i : abandonable (emit i).
Proof. intros n h. simpl. repeat split; [done|]. right. by eauto. Qed.

Lemma abandonable_suspend : abandonable suspend.
Proof.
  intros [|n] h; simpl; (repeat split; [done|]).
  - left. split; [done|]. apply prefix_nil.
  - right. by eauto.
Qed.

Lemma abandonable_of_outcome {A} (o : outcome A) : abandonable (of_outcome o).
Proof. destruct o; [apply abandonable_ret | apply abandonable_raise]. Qed.

Lemma abandonable_bind {A B} (m : prog A) (f : A -> prog B) :
  abandonable m -> (forall a, abandonable (f a)) -> abandonable (m ≫= f).
Proof.
  intros Hm Hf n h. specialize (Hm n h). unfold mbind, prog_bind.
  destruct (m (MState (Some n) h)) as [t1 [r1 [b1 h1]]].
  destruct (m (MState None h)) as [t2 [r2 [b2 h2]]].
  simpl in Hm. destruct Hm as (Hnc & -> & Hm).
  destruct Hm as [[-> Hpre] | (-> & -> & -> & [n1 ->])].
  - destruct r2 as [a|e|]; [| |done].
    + specialize (Hf a 0%nat h2).
      destruct (f a (MState None h2)) as [t3 [r3 s3]].
      simpl in *. destruct Hf as (? & ? & _). repeat split; [done..|].
      left. split; [done|]. by apply prefix_app_r.
    + simpl. repeat split; [done|]. by left.
  - destruct r2 as [a|e|]; [| |done].
    + specialize (Hf a n1 h2).
      destruct (f a (MState (Some n1) h2)) as [t3 [r3 s3]].
      destruct (f a (MState None h2)) as [t4 [r4 s4]].
      simpl in *. destruct Hf as (? & ? & Hf). repeat split; [done..|].
      destruct Hf as [[-> Hpre] | (-> & -> & ? & ?)].
      * left. split; [done|]. by apply prefix_app.
      * right. done.
    + simpl. repeat split; [done|]. right. by eauto.
Qed.

Lemma abandonable_try {A} (body : prog A) catches handler :
  abandonable body -> (forall e, abandonable (handler e)) ->
  abandonable (try_except body catches handler).
Proof.
  intros Hm Hf n h. specialize (Hm n h). unfold try_except.
  destruct (body (MState (Some n) h)) as [t1 [r1 [b1 h1]]].
  destruct (body (MState None h)) as [t2 [r2 [b2 h2]]].
  simpl in Hm. destruct Hm as (Hnc & -> & Hm).
  destruct Hm as [[-> Hpre] | (-> & -> & -> & [n1 ->])].
  - destruct r2 as [a|e|]; [|destruct (catches e)|done].
    + simpl. repeat split; [done|]. by left.
    + specialize (Hf e 0%nat h2).
      destruct (handler e (MState None h2)) as [t3 [r3 s3]].
      simpl in *. destruct Hf as (? & ? & _). repeat split; [done..|].
      left. split; [done|]. by apply prefix_app_r.
    + simpl. repeat split; [done|]. by left.
  - destruct r2 as [a|e|]; [|destruct (catches e)|done].
    + simpl. repeat split; [done|]. right. by eauto.
    + specialize (Hf e n1 h2).
      destruct (handler e (MState (Some n1) h2)) as [t3 [r3 s3]].
      destruct (handler e (MState None h2)) as [t4 [r4 s4]].
      simpl in *. destruct Hf as (? & ? & Hf). repeat split; [done..|].
      destruct Hf as [[-> Hpre] | (-> & -> & ? & ?)].
      * left. split; [done|]. by apply prefix_app.
      * right. done.
    + simpl. repeat split; [done|]. right. by eauto.
Qed.

Lemma abandonable_yield f : abandonable (yield f).
Proof.
  apply abandonable_bind; [apply abandonable_emit|].
  intros _. apply abandonable_suspend.
Qed.

Lemma abandonable_await {A} a (o : outcome A) : abandonable (await a o).
Proof.
  apply abandonable_bind; [apply abandonable_suspend|]. intros _.
  destruct o; [|apply abandonable_raise].
  apply abandonable_bind; [apply abandonable_emit|].
  intros _. apply abandonable_ret.
Qed.

Lemma stdout_loop_abandonable rs : abandonable (stdout_loop rs).
Proof.
  induction rs as [|r rs IH]; simpl; [apply abandonable_suspend|].
  apply abandonable_bind; [apply abandonable_await|]. intros line.
  apply abandonable_bind; [apply abandonable_of_outcome|]. intros text.
  apply abandonable_bind; [|done].
  case_bool_decide; [apply abandonable_ret | apply abandonable_yield].
Qed.

Lemma event_stream_abandonable w payload : abandonable (event_stream w payload).
Proof.
  unfold event_stream.
  apply abandonable_bind; [apply abandonable_yield|]. intros _.
  apply abandonable_bind; [|intros; apply abandonable_yield].
  apply abandonable_try; [|intros; apply abandonable_yield].
  apply abandonable_bind; [apply abandonable_await|]. intros process.
  apply abandonable_bind; [apply stdout_loop_abandonable|]. intros _.
  apply abandonable_bind; [apply abandonable_await|]. intros rc.
  destruct (rc =? 0)%Z; apply abandonable_yield.
Qed.

Lemma event_stream_abandoned_prefix w payload n h :
  (event_stream w payload (MState (Some n) h)).1
  `prefix_of` (event_stream w payload (drained h)).1.
Proof.
  destruct (event_stream_abandonable w payload n h) as (_ & _ & [[_ H] | [-> _]]);
    [exact H | done].
Qed.

(** C8, as amended.  No run of the relay, abandoned or not, kills the
    child; a child that was launched and not yet waited for is left
    running when the run stops; and an abandoned run is an initial part of
    the drained one: nothing is done on behalf of the consumer that left. *)
Theorem relay_never_kills (w : relay_world) (payload : PlaybookInput) (s : mstate) :
  let done := actions (event_stream w payload s).1 in
  (Kill ∉ done)
  /\ (existsb is_spawn done = true -> existsb is_wait done = false ->
      child_after done = Running)
  /\ (forall n h, s = MState (Some n) h ->
        (event_stream w payload s).1
        `prefix_of` (event_stream w payload (drained h)).1).
Proof.
  intros done. pose proof (event_stream_acts w payload s) as Hall.
  fold done in Hall. split; [|split].
  - intros Hk. rewrite Forall_forall in Hall. apply (Hall _ Hk).
  - intros Hs Hw. unfold child_after.
    by rewrite (child_step_quiet _ _ Hall Hw), Hs.
  - intros n h ->. apply event_stream_abandoned_prefix.
Qed.

(** The consumer leaves after the first line of a play. *)
Lemma relay_never_kills_witness :
  let run := event_stream (always quiet_play) site_payload (MState (Some 3%nat) ∅) in
  run.2.1 = Cancelled
  /\ existsb is_spawn (actions run.1) = true
  /\ existsb is_wait (actions run.1) = false
  /\ (Kill ∉ actions run.1)
  /\ child_after (actions run.1) = Running.
Proof.
  split; [reflexivity|]. split; [reflexivity|]. split; [reflexivity|].
  pose proof (relay_never_kills (always quiet_play) site_payload
                (MState (Some 3%nat) ∅)) as (Hk & Hr & _).
  split; [exact Hk | exact (Hr eq_refl eq_refl)].
Defined.

(** C8, as stated, fails: a consumer that leaves after the first line
    leaves the child running. *)
Lemma abandoned_child_left_running : ~ abandoned_child_terminated.
Proof.
  intros H.
  apply (H (always quiet_play) site_payload 3%nat ∅); reflexivity.
Qed.

(** ** The execution environment *)

Lemma with_default_lookup (k v k' : str) (d : dictobj) :
  with_default k v d !! k'
  = match d !! k' with
    | Some x => Some x
    | None => if bool_decide (k' = k) then Some v else None
    end.
Proof.
  unfold with_default. destruct (d !! k) as [x|] eqn:E.
  - destruct (d !! k') eqn:E'; [done|].
    case_bool_decide; [congruence | done].
  - case_bool_decide as Hk.
    + subst. by rewrite lookup_insert_eq, E.
    + rewrite lookup_insert_ne by done. by destruct (d !! k').
Qed.

Lemma build_ansible_env_run (s : mstate) :
  let env := fresh (dom (heap s)) in
  _build_ansible_env s
  = ([], (Ret env,
          MState (budget s)
            (<[env := ansible_env (default ∅ (heap s !! os_environ))]> (heap s)))).
Proof.
  destruct s as [b h]. simpl. unfold _build_ansible_env, dict_copy, dict_setdefault.
  unfold mbind, prog_bind. simpl.
  by rewrite !alter_insert_eq.
Qed.

(** C4.  Whatever the heap holds, the builder returns a dict object that
    did not exist before, leaves [os.environ] and every other object as
    they were, and fills the new dict with the ambient bindings plus the
    two defaults where the ambient environment has no binding; its contents
    are a function of the ambient environment alone. *)
Theorem build_ansible_env_copy (ambient : dictobj) (h : gmap loc dictobj)
    (b : option nat) :
  let before := <[os_environ := ambient]> h in
  let run := _build_ansible_env (MState b before) in
  let after := heap run.2.2 in
  exists env,
    run.1 = [] /\ run.2.1 = Ret env /\ budget run.2.2 = b
    /\ before !! env = None
    /\ after !! env = Some (ansible_env ambient)
    /\ after !! os_environ = Some ambient
    /\ (forall l, l <> env -> after !! l = before !! l)
    /\ (forall k,
          ansible_env ambient !! k
          = match ambient !! k with
            | Some v => Some v
            | None =>
                if bool_decide (k = lit "ANSIBLE_FORCE_COLOR") then Some (lit "0")
                else if bool_decide (k = lit "ANSIBLE_HOST_KEY_CHECKING")
                     then Some (lit "False")
                     else None
            end).
Proof.
  intros before run after. subst after run.
  rewrite build_ansible_env_run. simpl.
  set (env := fresh (dom before)).
  assert (before !! env = None) as Hfresh.
  { apply not_elem_of_dom, is_fresh. }
  assert (env <> os_environ) as Hne.
  { intros Heq. rewrite Heq in Hfresh. unfold before in Hfresh.
    by rewrite lookup_insert_eq in Hfresh. }
  exists env. repeat split; try done.
  - rewrite lookup_insert_eq. unfold before at 1. by rewrite lookup_insert_eq.
  - rewrite lookup_insert_ne by done. apply lookup_insert_eq.
  - intros l Hl. by rewrite lookup_insert_ne.
  - intros k. unfold ansible_env. rewrite !with_default_lookup.
    destruct (ambient !! k); [done|].
    by repeat case_bool_decide.
Qed.

(** ** The bounded process runner *)

Lemma bind_run {A B} (m : prog A) (f : A -> prog B) s t a s1 :
  m s = (t, (Ret a, s1)) ->
  (m ≫= f) s = let '(t2, r) := f a s1 in (t ++ t2, r).
Proof. intros H. unfold mbind, prog_bind. by rewrite H. Qed.

Lemma decode_fault_class (b : bytes) (e : exc) :
  decode b = Fault e -> exc_cls e = UnicodeDecodeError.
Proof.
  unfold decode. destruct (utf8_decode _ _); [done|].
  intros [= <-]. done.
Qed.

Lemma not_timeout (b : bytes) (e : exc) :
  decode b = Fault e -> of_class TimeoutError e = false.
Proof.
  intros H%decode_fault_class. unfold of_class. rewrite H.
  by apply bool_decide_eq_false_2.
Qed.

Lemma run_ansible_command_run (w : run_world) (cmd : list str) (timeout : Z)
    (ambient : dictobj) (h : gmap loc dictobj) :
  launched w = Ok tt ->
  let before := <[os_environ := ambient]> h in
  let env := fresh (dom before) in
  let after := drained (<[env := ansible_env ambient]> before) in
  run_ansible_command w cmd timeout (drained before)
  = match completion w with
    | None =>
        ([Do (Spawn cmd (Some (ansible_env ambient)) false); Do Kill;
          Do Communicate],
         (Ret (timeout_result timeout), after))
    | Some c =>
        (Do (Spawn cmd (Some (ansible_env ambient)) false)
         :: [Do Communicate],
         (match decode (cap_stdout c), decode (cap_stderr c) with
          | Ok out, Ok err =>
              Ret (JDict [(lit "stdout", JStr out);
                          (lit "stderr", JStr err);
                          (lit "returncode", JInt (cap_returncode c))])
          | Fault e, _ => Raise e
          | Ok _, Fault e => Raise e
          end, after))
    end.
Proof.
  intros Hl before env after. unfold run_ansible_command.
  erewrite bind_run by apply build_ansible_env_run.
  cbn [heap budget drained]. fold before. fold env.
  assert (before !! os_environ = Some ambient) as Hamb
    by apply lookup_insert_eq.
  unfold wait_for_communicate. rewrite Hl.
  destruct (completion w) as [c|].
  - run_prog. rewrite Hamb, !lookup_insert_eq. cbn [default from_option id].
    destruct (decode (cap_stdout c)) as [out|e] eqn:Ho.
    + destruct (decode (cap_stderr c)) as [err|e] eqn:He; run_prog; [done|].
      by rewrite (not_timeout _ _ He).
    + run_prog. by rewrite (not_timeout _ _ Ho).
  - run_prog. by rewrite Hamb, !lookup_insert_eq.
Qed.


(** C3, as amended.  When the child ends within the bound and both of its
    outputs decode as UTF-8, the runner returns them with the exit status;
    the dict has no [timeout] key, so that the flag reads as false. *)
Theorem runner_completes (cmd : list str) (timeout : Z) (c : captured)
    (lo : bytes * bytes) (ambient : dictobj) (h : gmap loc dictobj)
    (out err : str) :
  decode (cap_stdout c) = Ok out ->
  decode (cap_stderr c) = Ok err ->
  let run := run_ansible_command
               {| launched := Ok tt; completion := Some c; leftover := lo |}
               cmd timeout (drained (<[os_environ := ambient]> h)) in
  let j := JDict [(lit "stdout", JStr out); (lit "stderr", JStr err);
                  (lit "returncode", JInt (cap_returncode c))] in
  run.2.1 = Ret j
  /\ as_ExecutionResult j
     = Some {| stdout := out; stderr := err;
               exitCode := Some (cap_returncode c); timedOut := false |}
  /\ actions run.1
     = [Spawn cmd (Some (ansible_env ambient)) false; Communicate]
  /\ child_after (actions run.1) = Reaped.
Proof.
  intros Ho He run j. subst run j.
  pose proof (run_ansible_command_run
                {| launched := Ok tt; completion := Some c; leftover := lo |}
                cmd timeout ambient h eq_refl) as Hrun.
  cbv zeta in Hrun. rewrite Hrun. cbn [completion]. rewrite Ho, He. done.
Qed.

(** The scenario of the specification: [echo hello] under a bound of 5 s. *)
Lemma runner_completes_witness :
  let c := Captured (blit "hello" ++ [x0a]) [] 0 in
  let run := run_ansible_command
               {| launched := Ok tt; completion := Some c; leftover := ([], []) |}
               [lit "echo"; lit "hello"] 5 (drained (<[os_environ := ∅]> ∅)) in
  let j := JDict [(lit "stdout", JStr (lit "hello" ++ [LF]));
                  (lit "stderr", JStr []);
                  (lit "returncode", JInt 0)] in
  (decode (cap_stdout c) = Ok (lit "hello" ++ [LF]) /\ decode (cap_stderr c) = Ok [])
  /\ run.2.1 = Ret j
  /\ as_ExecutionResult j
     = Some {| stdout := lit "hello" ++ [LF]; stderr := [];
               exitCode := Some 0%Z; timedOut := false |}.
Proof.
  intros c run j.
  split; [split; reflexivity|].
  destruct (runner_completes [lit "echo"; lit "hello"] 5 c ([], []) ∅ ∅
              (lit "hello" ++ [LF]) [] eq_refl eq_refl) as (H1 & H2 & _).
  split; [exact H1 | exact H2].
Defined.

(** C3, as stated, fails: on an output that is not UTF-8 the runner raises
    [UnicodeDecodeError] instead of returning. *)
Lemma runner_raises_on_binary_output : ~ runner_always_returns.
Proof.
  intros H.
  destruct (H [lit "cat"; lit "blob"] 5%Z (Captured [xff] [] 0) ([], [])
              (<[os_environ := ∅]> ∅)) as (j & r & Hret & _).
  pose proof (run_ansible_command_run
                {| launched := Ok tt; completion := Some (Captured [xff] [] 0);
                   leftover := ([], []) |}
                [lit "cat"; lit "blob"] 5%Z ∅ ∅ eq_refl) as Hrun.
  cbv zeta in Hrun. rewrite Hrun in Hret. discriminate Hret.
Qed.

(** ** [list_inventory] *)

(** C10, as amended.  A missing inventory file gives the error dict and no
    process; after a launch, a non-zero status gives the decoded stderr and
    the status only, a zero status with text that is not JSON gives the
    text under [output], and a zero status with JSON gives the parsed
    value; a fault at the launch is raised to the caller. *)
Theorem list_inventory_results (json_loads : str -> outcome json)
    (w : inventory_world) (inventory_file : str) (h : gmap loc dictobj) :
  let run := list_inventory json_loads w inventory_file (drained h) in
  (path_exists w inventory_file = false ->
     run.2.1 = Ret (JDict [(lit "error",
                            JStr (lit "Inventory file not found: "
                                  ++ inventory_file))])
     /\ actions run.1 = [])
  /\ (forall c,
        path_exists w inventory_file = true ->
        inventory_child w (inventory_cmd inventory_file) = Ok c ->
        (forall err,
           cap_returncode c <> 0%Z ->
           decode (cap_stderr c) = Ok err ->
           run.2.1 = Ret (JDict [(lit "stderr", JStr err);
                                 (lit "returncode", JInt (cap_returncode c))]))
        /\ (forall out e,
              cap_returncode c = 0%Z ->
              decode (cap_stdout c) = Ok out ->
              json_loads out = Fault e ->
              exc_cls e = JSONDecodeError ->
              run.2.1 = Ret (JDict [(lit "output", JStr out)]))
        /\ (forall out j,
              cap_returncode c = 0%Z ->
              decode (cap_stdout c) = Ok out ->
              json_loads out = Ok j ->
              run.2.1 = Ret j))
  /\ (forall e,
        path_exists w inventory_file = true ->
        inventory_child w (inventory_cmd inventory_file) = Fault e ->
        run.2.1 = Raise e).
Proof.
  intros run. subst run. unfold list_inventory. fold (inventory_cmd inventory_file).
  split; [|split].
  - intros ->. done.
  - intros c -> ->. cbn [negb]. run_prog. repeat split.
    + intros err Hrc ->. apply Z.eqb_neq in Hrc. rewrite Hrc. by run_prog.
    + intros out e -> -> -> Hcls. run_prog.
      unfold of_class. by rewrite bool_decide_eq_true_2.
    + intros out j -> -> ->. by run_prog.
  - intros e -> ->. cbn [negb]. by run_prog.
Qed.

(** C10, as stated, fails: when [ansible-inventory] cannot be started the
    exception reaches the caller. *)
Lemma list_inventory_launch_fault_escapes : ~ list_inventory_never_raises.
Proof.
  intros H.
  destruct (H (fun _ => Ok JNull)
              {| path_exists := fun _ => true;
                 inventory_child := fun _ =>
                   Fault (Exc FileNotFoundError
                            (lit "[Errno 2] No such file or directory: 'ansible-inventory'")) |}
              (lit "inventory.ini") ∅) as [j Hj].
  discriminate Hj.
Qed.

(** ** [generate_playbook] *)

Lemma rfind_spec (c : N) (p : str) :
  (rfind c p = (-1)%Z /\ c ∉ p)
  \/ (exists i : nat, rfind c p = Z.of_nat i /\ c ∉ drop (S i) p).
Proof.
  induction p as [|x p IH]; simpl.
  - left. split; [done|]. apply not_elem_of_nil.
  - destruct IH as [[Hr Hn] | (i & Hr & Hn)]; rewrite Hr.
    + simpl. destruct (x =? c) eqn:E.
      * right. exists 0%nat. split; [done|]. by rewrite drop_0.
      * left. split; [done|]. apply N.eqb_neq in E.
        rewrite not_elem_of_cons. split; [done|done].
    + right. exists (S i). split.
      * destruct (0 <=? Z.of_nat i)%Z eqn:E; [lia|]. apply Z.leb_gt in E. lia.
      * done.
Qed.

Lemma basename_no_slash (p : str) : SLASH ∉ basename p.
Proof.
  unfold basename.
  destruct (rfind_spec SLASH p) as [[-> Hn] | (i & -> & Hn)].
  - by rewrite drop_0.
  - replace (Z.to_nat (Z.of_nat i + 1)) with (S i) by lia. done.
Qed.

Lemma scan_app (st : list str) (cur a b : str) :
  scan st cur (a ++ b) = let '(st', cur') := scan st cur a in scan st' cur' b.
Proof.
  revert st cur. induction a as [|c a IH]; intros st cur; simpl; [done|].
  destruct (c =? SLASH); apply IH.
Qed.

Lemma scan_name (st : list str) (cur n : str) :
  SLASH ∉ n -> scan st cur n = (st, cur ++ n).
Proof.
  revert cur. induction n as [|c n IH]; intros cur Hn; simpl.
  - by rewrite app_nil_r.
  - apply not_elem_of_cons in Hn as [Hc Hn].
    destruct (c =? SLASH) eqn:E; [apply N.eqb_eq in E; congruence|].
    rewrite IH by done. by rewrite <- app_assoc.
Qed.

Lemma scan_ends_with_slash (st : list str) (cur a : str) :
  ends_with_slash a = true -> exists st', scan st cur a = (st', []).
Proof.
  unfold ends_with_slash.
  destruct a as [|c a _] using rev_ind; [done|].
  rewrite last_snoc. intros Hc. rewrite scan_app.
  destruct (scan st cur a) as [st' cur']. simpl. rewrite Hc. eauto.
Qed.

(** The directory of the playbooks: some directory, then [playbooks]. *)
Lemma playbooks_dir_scan (BASE_DIR : str) :
  exists st, scan [] [] (PLAYBOOKS_DIR BASE_DIR) = (st, lit "playbooks").
Proof.
  unfold PLAYBOOKS_DIR, path_join.
  change (startswith [SLASH] (lit "playbooks")) with false. cbv iota.
  case_bool_decide as Hb; simpl.
  - subst. by exists [].
  - destruct (ends_with_slash BASE_DIR) eqn:E.
    + rewrite scan_app.
      destruct (scan_ends_with_slash [] [] BASE_DIR E) as [st ->].
      by exists st.
    + rewrite scan_app. destruct (scan [] [] BASE_DIR) as [st cur].
      by exists (enter st cur).
Qed.

Lemma playbooks_dir_resolve (BASE_DIR : str) :
  exists st, scan [] [] (PLAYBOOKS_DIR BASE_DIR) = (st, lit "playbooks")
             /\ resolve (PLAYBOOKS_DIR BASE_DIR) = st ++ [lit "playbooks"].
Proof.
  destruct (playbooks_dir_scan BASE_DIR) as [st H]. exists st. split; [done|].
  unfold resolve. by rewrite H.
Qed.

Lemma playbooks_dir_shape (BASE_DIR : str) :
  PLAYBOOKS_DIR BASE_DIR <> [] /\ ends_with_slash (PLAYBOOKS_DIR BASE_DIR) = false.
Proof.
  assert (exists X, PLAYBOOKS_DIR BASE_DIR = (X ++ lit "playbook") ++ [115]) as [X ->].
  { unfold PLAYBOOKS_DIR, path_join.
    change (startswith [SLASH] (lit "playbooks")) with false. cbv iota.
    destruct (_ || _).
    - exists BASE_DIR. by rewrite <- app_assoc.
    - exists (BASE_DIR ++ [SLASH]). by rewrite <- !app_assoc. }
  split.
  - intros H. apply (f_equal length) in H. rewrite length_app in H. simpl in H. lia.
  - unfold ends_with_slash. by rewrite last_snoc.
Qed.

Lemma target_path (BASE_DIR name : str) :
  SLASH ∉ name -> name <> [] ->
  path_join (PLAYBOOKS_DIR BASE_DIR) name
  = PLAYBOOKS_DIR BASE_DIR ++ [SLASH] ++ name
  /\ resolve (path_join (PLAYBOOKS_DIR BASE_DIR) name)
     = enter (resolve (PLAYBOOKS_DIR BASE_DIR)) name.
Proof.
  intros Hs Hn.
  destruct (playbooks_dir_shape BASE_DIR) as [Hne He].
  assert (path_join (PLAYBOOKS_DIR BASE_DIR) name
          = PLAYBOOKS_DIR BASE_DIR ++ [SLASH] ++ name) as ->.
  { unfold path_join. destruct name as [|c name]; [done|].
    apply not_elem_of_cons in Hs as [Hc _]. cbn [startswith].
    destruct (SLASH =? c) eqn:E; [apply N.eqb_eq in E; congruence|].
    cbn [andb]. by rewrite He, bool_decide_eq_false_2. }
  split; [done|].
  destruct (playbooks_dir_resolve BASE_DIR) as (st & Hscan & ->).
  unfold resolve. rewrite scan_app, Hscan, scan_app. simpl.
  rewrite scan_name by done. done.
Qed.





(** ** The theorems at sample inputs *)

(** Two lines around an empty one. *)
Lemma relay_data_events_witness :
  let lines := [blit "PLAY [all]" ++ [x0a]; [x0a]; blit "ok: [web1]" ++ [x0a]] in
  let texts := [lit "PLAY [all]" ++ [LF]; [LF]; lit "ok: [web1]" ++ [LF]] in
  let fs := frames (event_stream (always quiet_play) site_payload (drained ∅)).1 in
  Forall2 (fun l t => decode l = Ok t) lines texts
  /\ of_kind Data fs = [data_frame (lit "PLAY [all]"); data_frame (lit "ok: [web1]")]
  /\ count_kind Data fs = 2%nat.
Proof.
  intros lines texts fs.
  assert (Forall2 (fun l t => decode l = Ok t) lines texts) as Hdec
    by (repeat constructor).
  split; [exact Hdec|].
  exact (relay_data_events (always quiet_play) site_payload ∅ quiet_play
           lines texts eq_refl eq_refl Hdec).
Defined.

(** C5, as stated, fails: a line that is not UTF-8 gives no [Data] frame. *)
Lemma every_line_relayed_fails : ~ every_line_relayed.
Proof.
  intros H.
  specialize (H (always binary_play) site_payload ∅ binary_play [[xff; x0a]]
                eq_refl eq_refl).
  vm_compute in H. discriminate H.
Qed.

(** A play that ends with status 2. *)
Lemma relay_terminal_after_exit_witness :
  let fs := frames (event_stream (always failed_play) site_payload (drained ∅)).1 in
  loop_fault (reads failed_play) = None
  /\ fs = [lit "event: start" ++ [LF]
           ++ lit "data: Starting playbook execution..." ++ [LF; LF];
           lit "data: " ++ [34] ++ lit "fatal: [web1]: UNREACHABLE!" ++ [34]
           ++ [LF; LF];
           lit "event: error" ++ [LF] ++ lit "data: Return code 2" ++ [LF; LF];
           lit "event: end" ++ [LF] ++ lit "data: done" ++ [LF; LF]]
  /\ count_kind Complete fs = 0%nat
  /\ count_kind Error fs = 1%nat.
Proof.
  intros fs. split; [reflexivity|].
  destruct (relay_terminal_after_exit (always failed_play) site_payload ∅
              failed_play 2 eq_refl eq_refl eq_refl) as (Hfs & Hc & He & _).
  split; [exact Hfs|]. split; [exact Hc | exact He].
Defined.

(** The executable is missing. *)
Lemma relay_fault_reported_witness :
  let run := event_stream no_executable site_payload (drained ∅) in
  first_fault no_executable site_payload
  = Some (Exc FileNotFoundError
            (lit "[Errno 2] No such file or directory: 'ansible-playbook'"))
  /\ run.2.1 = Ret tt
  /\ frames run.1
     = [lit "event: start" ++ [LF]
        ++ lit "data: Starting playbook execution..." ++ [LF; LF];
        lit "event: error" ++ [LF]
        ++ lit "data: [Errno 2] No such file or directory: 'ansible-playbook'"
        ++ [LF; LF];
        lit "event: end" ++ [LF] ++ lit "data: done" ++ [LF; LF]].
Proof.
  intros run. split; [reflexivity|].
  destruct (relay_fault_reported no_executable site_payload ∅ FileNotFoundError
              (lit "[Errno 2] No such file or directory: 'ansible-playbook'")
              eq_refl)
    as (Hret & _ & _ & _ & _ & Hlaunch).
  split; [exact Hret | exact (Hlaunch eq_refl)].
Defined.

(** An ambient environment that sets one of the two variables. *)
Lemma build_ansible_env_copy_witness :
  let ambient : dictobj :=
    {[ lit "PATH" := lit "/usr/bin"; lit "ANSIBLE_FORCE_COLOR" := lit "1" ]} in
  let run := _build_ansible_env (MState None (<[os_environ := ambient]> ∅)) in
  exists env,
    run.2.1 = Ret env
    /\ env <> os_environ
    /\ heap run.2.2 !! os_environ = Some ambient
    /\ heap run.2.2 !! env = Some (ansible_env ambient)
    /\ ansible_env ambient !! lit "ANSIBLE_FORCE_COLOR" = Some (lit "1")
    /\ ansible_env ambient !! lit "ANSIBLE_HOST_KEY_CHECKING" = Some (lit "False")
    /\ ansible_env ambient !! lit "PATH" = Some (lit "/usr/bin").
Proof.
  intros ambient run.
  destruct (build_ansible_env_copy ambient ∅ None)
    as (env & _ & Hret & _ & Hfresh & Henv & Hamb & _ & Hlook).
  exists env. split; [exact Hret|]. split.
  - intros ->. rewrite lookup_insert_eq in Hfresh. discriminate Hfresh.
  - split; [exact Hamb|]. split; [exact Henv|].
    rewrite !Hlook. repeat split; vm_compute; reflexivity.
Defined.


(** The command prints a warning instead of JSON. *)
Lemma list_inventory_results_witness :
  let loads : str -> outcome json := fun _ =>
    Fault (Exc JSONDecodeError (lit "Expecting value: line 1 column 1 (char 0)")) in
  let c := Captured (blit "[WARNING]: no hosts") [] 0 in
  let w := {| path_exists := fun _ => true; inventory_child := fun _ => Ok c |} in
  let run := list_inventory loads w (lit "inventory.ini") (drained ∅) in
  decode (cap_stdout c) = Ok (lit "[WARNING]: no hosts")
  /\ run.2.1 = Ret (JDict [(lit "output", JStr (lit "[WARNING]: no hosts"))]).
Proof.
  intros loads c w run. split; [reflexivity|].
  destruct (list_inventory_results loads w (lit "inventory.ini") ∅)
    as (_ & Hexists & _).
  destruct (Hexists c eq_refl eq_refl) as (_ & Hbad & _).
  exact (Hbad (lit "[WARNING]: no hosts")
           (Exc JSONDecodeError (lit "Expecting value: line 1 column 1 (char 0)"))
           eq_refl eq_refl eq_refl eq_refl).
Defined.

(** A name that is the parent directory itself: the target is a directory,
    [open] fails, and only the directories of [makedirs] were created. *)
Example generate_playbook_parent_name :
  let run := generate_playbook (lit "/srv/app") ∅ (lit "a/..") (lit "x") in
  basename (strip (lit "a/..")) = lit ".."
  /\ run.1 = Raise (Exc IsADirectoryError (lit "[Errno 21] Is a directory"))
  /\ run.2 = (makedirs ∅ (PLAYBOOKS_DIR (lit "/srv/app"))).2.
Proof. vm_compute. done. Qed.

(** A line that is not UTF-8, as the consumer sees it. *)
Example relay_binary_line :
  frames (event_stream (always binary_play) site_payload (drained ∅)).1
  = [start_frame;
     error_frame (lit "'utf-8' codec can't decode byte 0xff in position 0: invalid start byte");
     end_frame].
Proof. reflexivity. Qed.

(** After a fault while reading, the child is neither waited for nor
    killed. *)
Example relay_binary_line_child :
  child_after
    (actions (event_stream (always binary_play) site_payload (drained ∅)).1)
  = Running.
Proof. reflexivity. Qed.

(** * Further properties *)

(** ** Text helpers *)

Lemma rstrip_parts (s : str) :
  exists ws,
    s = rstrip s ++ ws /\ forallb isspace ws = true
    /\ (forall c, last (rstrip s) = Some c -> isspace c = false).
Proof.
  induction s as [|c s (ws & Hs & Hws & Hlast)]; simpl.
  - exists []. done.
  - destruct (rstrip s) as [|x t] eqn:E.
    + destruct (isspace c) eqn:Hc.
      * exists (c :: s). repeat split; [|done]. simpl in *. subst ws.
        by rewrite Hc.
      * exists ws. simpl in *. subst ws. repeat split; [done|].
        intros c' [= <-]. done.
    + exists ws. rewrite Hs at 1. repeat split; [done|].
      intros c' Hc'. apply Hlast. by rewrite <- Hc'.
Qed.



(** X1.  [rstrip] removes exactly the trailing whitespace. *)
Theorem rstrip_spec (s : str) :
  exists ws,
    s = rstrip s ++ ws
    /\ forallb isspace ws = true
    /\ (forall c, last (rstrip s) = Some c -> isspace c = false).
Proof. apply rstrip_parts. Qed.


Lemma rfind_last (c : N) (p : str) :
  (rfind c p = (-1)%Z /\ c ∉ p)
  \/ (exists i : nat,
        rfind c p = Z.of_nat i /\ p !! i = Some c /\ c ∉ drop (S i) p).
Proof.
  induction p as [|x p IH]; simpl.
  - left. split; [done|]. apply not_elem_of_nil.
  - destruct IH as [[Hr Hn] | (i & Hr & Hi & Hn)]; rewrite Hr.
    + simpl. destruct (x =? c) eqn:E.
      * apply N.eqb_eq in E. subst. right. exists 0%nat.
        split; [done|]. split; [done|]. by rewrite drop_0.
      * left. split; [done|]. apply N.eqb_neq in E.
        rewrite not_elem_of_cons. done.
    + right. exists (S i). split; [|done].
      destruct (0 <=? Z.of_nat i)%Z eqn:E; [lia|]. apply Z.leb_gt in E. lia.
Qed.

Lemma basename_parts (p : str) :
  exists d,
    p = d ++ basename p /\ (SLASH ∉ basename p)
    /\ (d = [] \/ last d = Some SLASH).
Proof.
  unfold basename.
  destruct (rfind_last SLASH p) as [[-> Hn] | (i & -> & Hi & Hn)].
  - exists []. rewrite drop_0. auto.
  - replace (Z.to_nat (Z.of_nat i + 1)) with (S i) by lia.
    exists (take (S i) p). split; [by rewrite take_drop|]. split; [done|].
    right. rewrite (take_S_r _ _ _ Hi). apply last_snoc.
Qed.

Lemma basename_nil_iff (p : str) :
  basename p = [] <-> p = [] \/ last p = Some SLASH.
Proof.
  destruct (basename_parts p) as (d & Hp & Hs & Hd). split.
  - intros E. rewrite E, app_nil_r in Hp. subst d. done.
  - intros [-> | Hl]; [done|].
    destruct (basename p) as [|x b _] using rev_ind; [done|].
    rewrite Hp, app_assoc, last_snoc in Hl. injection Hl as ->.
    exfalso. apply Hs. apply elem_of_app. right. constructor.
Qed.


(** X3.  [generate_playbook] answers "file_name must be provided" exactly
    when the name, stripped, is empty or ends with a separator. *)
Theorem generate_playbook_rejects (BASE_DIR : str) (fs : filesystem)
    (file_name data : str) :
  (generate_playbook BASE_DIR fs file_name data).1
  = Ret (JDict [(lit "error", JStr (lit "file_name must be provided"))])
  <-> strip file_name = [] \/ last (strip file_name) = Some SLASH.
Proof.
  rewrite <- basename_nil_iff. unfold generate_playbook.
  case_bool_decide as Hn; [done|].
  split; [|done]. intros H. exfalso.
  destruct (makedirs fs (PLAYBOOKS_DIR BASE_DIR)) as [[[]|e|] fs1]; try done.
  destruct (write_file _ _ _) as [[[]|e|] fs2]; done.
Qed.

(** ** [generate_playbook], further *)

Lemma rfind_absent (c : N) (p : str) : c ∉ p -> rfind c p = (-1)%Z.
Proof.
  induction p as [|x p IH]; [done|]. intros [Hx Hp]%not_elem_of_cons.
  simpl. rewrite (IH Hp). simpl.
  destruct (x =? c) eqn:E; [|done]. apply N.eqb_eq in E. congruence.
Qed.

Lemma rfind_before_name (d n : str) :
  SLASH ∉ n -> rfind SLASH (d ++ SLASH :: n) = Z.of_nat (length d).
Proof.
  intros Hn. induction d as [|x d IH]; simpl.
  - rewrite (rfind_absent _ _ Hn). simpl. done.
  - rewrite IH. destruct (0 <=? Z.of_nat (length d))%Z eqn:E; [lia|].
    apply Z.leb_gt in E. lia.
Qed.

Lemma basename_join (d n : str) :
  SLASH ∉ n -> basename (d ++ [SLASH] ++ n) = n.
Proof.
  intros Hn. unfold basename. simpl. rewrite (rfind_before_name _ _ Hn).
  replace (Z.to_nat (Z.of_nat (length d) + 1)) with (S (length d)) by lia.
  change (d ++ SLASH :: n) with (d ++ [SLASH] ++ n).
  rewrite app_assoc, drop_app_length'; [done|].
  rewrite length_app. simpl. lia.
Qed.





(** X4.  The path that is reported leads back to the sanitized name. *)
Theorem generate_playbook_path_basename (BASE_DIR file_name : str) :
  let name := basename (strip file_name) in
  name <> [] ->
  path_join (PLAYBOOKS_DIR BASE_DIR) name = PLAYBOOKS_DIR BASE_DIR ++ [SLASH] ++ name
  /\ basename (path_join (PLAYBOOKS_DIR BASE_DIR) name) = name.
Proof.
  intros name Hname.
  pose proof (basename_no_slash (strip file_name)) as Hslash. fold name in Hslash.
  destruct (target_path BASE_DIR name Hslash Hname) as [-> _].
  split; [done|]. by apply basename_join.
Qed.



(** ** The environment and the runner, further *)

(** X7.  Two calls of the builder give two distinct dict objects, both
    distinct from [os.environ], with the same contents. *)
Theorem build_ansible_env_twice (ambient : dictobj) (h : gmap loc dictobj)
    (b : option nat) :
  let run1 := _build_ansible_env (MState b (<[os_environ := ambient]> h)) in
  let run2 := _build_ansible_env run1.2.2 in
  let after := heap run2.2.2 in
  exists env1 env2,
    run1.2.1 = Ret env1 /\ run2.2.1 = Ret env2
    /\ env1 <> env2 /\ env1 <> os_environ /\ env2 <> os_environ
    /\ after !! env1 = Some (ansible_env ambient)
    /\ after !! env2 = Some (ansible_env ambient)
    /\ after !! os_environ = Some ambient.
Proof.
  intros run1 run2 after. subst after run2 run1.
  rewrite build_ansible_env_run. cbn [fst snd heap budget].
  rewrite build_ansible_env_run. cbn [fst snd heap budget].
  set (h0 := <[os_environ := ambient]> h).
  set (env1 := fresh (dom h0)).
  set (h1 := <[env1 := _]> h0).
  set (env2 := fresh (dom h1)).
  assert (h0 !! os_environ = Some ambient) as Hamb by apply lookup_insert_eq.
  assert (h0 !! env1 = None) as Hf1 by apply not_elem_of_dom, is_fresh.
  assert (h1 !! env2 = None) as Hf2 by apply not_elem_of_dom, is_fresh.
  assert (env1 <> os_environ) as Hn1 by (intros E; congruence).
  assert (h1 !! os_environ = Some ambient) as Hamb1.
  { unfold h1. by rewrite lookup_insert_ne. }
  assert (env2 <> os_environ) as Hn2 by (intros E; congruence).
  assert (env1 <> env2) as Hn12.
  { intros E. rewrite <- E in Hf2. unfold h1 in Hf2.
    by rewrite lookup_insert_eq in Hf2. }
  exists env1, env2. rewrite Hamb1. cbn [default from_option id].
  repeat split; try done.
  - rewrite lookup_insert_ne by done. unfold h1.
    by rewrite lookup_insert_eq, Hamb.
  - apply lookup_insert_eq.
  - by rewrite lookup_insert_ne.
Qed.






(** ** The relay, further *)

Lemma hex_digit_printable (d : N) : d < 16 -> printable (hex_digit d) = true.
Proof.
  intros Hd. unfold printable, hex_digit.
  destruct (d <? 10) eqn:E.
  - apply N.ltb_lt in E. apply andb_true_iff. split; apply N.leb_le; lia.
  - apply N.ltb_ge in E. apply andb_true_iff. split; apply N.leb_le; lia.
Qed.

Lemma u_escape_printable (n : N) : forallb printable (u_escape n) = true.
Proof.
  unfold u_escape, hex4. simpl.
  rewrite !hex_digit_printable; [done|apply N.mod_lt; lia..].
Qed.

Lemma json_escape_printable (c : N) : forallb printable (json_escape c) = true.
Proof.
  unfold json_escape.
  do 7 (match goal with
        | |- context [if ?b then _ else _] => destruct b; [reflexivity|]
        end).
  destruct ((32 <=? c) && (c <=? 126)) eqn:E.
  - simpl. unfold printable. by rewrite E.
  - destruct (c <? 65536); [apply u_escape_printable|].
    by rewrite forallb_app, !u_escape_printable.
Qed.

Lemma json_dumps_str_printable (s : str) :
  forallb printable (json_dumps_str s) = true.
Proof.
  unfold json_dumps_str. rewrite !forallb_app. simpl.
  rewrite andb_true_r. induction s as [|c s IH]; simpl; [done|].
  by rewrite forallb_app, json_escape_printable, IH.
Qed.

(** X11.  A [Data] frame is [data: ], a run of printable ASCII characters
    and the two line feeds: whatever the child writes, the payload holds no
    line break, so that a line of output cannot end the frame or open
    another. *)
Theorem data_frame_one_line (cleaned : str) :
  exists body,
    data_frame cleaned = lit "data: " ++ body ++ [LF; LF]
    /\ forallb printable body = true
    /\ (LF ∉ body)
    /\ event_kind (data_frame cleaned) = Some Data.
Proof.
  exists (json_dumps_str cleaned). split; [done|].
  pose proof (json_dumps_str_printable cleaned) as Hp.
  split; [done|]. split; [|done].
  intros Hin. rewrite forallb_forall in Hp.
  apply list_elem_of_In in Hin. specialize (Hp _ Hin). done.
Qed.

Section Yields.
Context (P : str -> Prop).

Lemma yields_ret {A} (a : A) : yields P (mret a).
Proof. intros s. constructor. Qed.

Lemma yields_bind {A B} (m : prog A) (f : A -> prog B) :
  yields P m -> (forall a, yields P (f a)) -> yields P (m ≫= f).
Proof.
  intros Hm Hf s. unfold mbind, prog_bind.
  specialize (Hm s). destruct (m s) as [t1 [[a|e|] s1]]; simpl in *; try done.
  specialize (Hf a s1). destruct (f a s1) as [t2 r]. simpl in *.
  rewrite frames_app. by apply Forall_app.
Qed.

Lemma yields_suspend : yields P suspend.
Proof. intros [[[|n]|] h]; constructor. Qed.

Lemma yields_raise {A} e : yields P (@raise A e).
Proof. intros s. constructor. Qed.

Lemma yields_of_outcome {A} (o : outcome A) : yields P (of_outcome o).
Proof. destruct o; [apply yields_ret | apply yields_raise]. Qed.

Lemma yields_yield f : P f -> yields P (yield f).
Proof.
  intros Hf. apply yields_bind; [|intros; apply yields_suspend].
  intros s. simpl. by repeat constructor.
Qed.

Lemma yields_await {A} a (o : outcome A) : yields P (await a o).
Proof.
  apply yields_bind; [apply yields_suspend|]. intros _.
  destruct o; [|apply yields_raise].
  apply yields_bind; [|intros; apply yields_ret].
  intros s. simpl. constructor.
Qed.

Lemma yields_try {A} (body : prog A) catches handler :
  yields P body -> (forall e, yields P (handler e)) ->
  yields P (try_except body catches handler).
Proof.
  intros Hb Hh s. unfold try_except.
  specialize (Hb s). destruct (body s) as [t1 [[a|e|] s1]]; simpl in *; try done.
  destruct (catches e); [|done].
  specialize (Hh e s1). destruct (handler e s1) as [t2 r]. simpl in *.
  rewrite frames_app. by apply Forall_app.
Qed.
End Yields.

Lemma stdout_loop_yields rs :
  yields (fun f => event_kind f = Some Data) (stdout_loop rs).
Proof.
  induction rs as [|r rs IH]; simpl; [apply yields_suspend|].
  apply yields_bind; [apply yields_await|]. intros line.
  apply yields_bind; [apply yields_of_outcome|]. intros text.
  apply yields_bind; [|done].
  case_bool_decide; [apply yields_ret | by apply yields_yield].
Qed.

Lemma yields_impl {A} (P Q : str -> Prop) (m : prog A) :
  (forall f, P f -> Q f) -> yields P m -> yields Q m.
Proof. intros H Hm s. eapply Forall_impl; [apply Hm | done]. Qed.

Lemma yield_then {A} (P : str -> Prop) (f : str) (k : unit -> prog A) :
  (forall u, yields P (k u)) ->
  forall s, exists rest,
    frames ((yield f ≫= k) s).1 = f :: rest /\ Forall P rest.
Proof.
  intros Hk s. unfold mbind at 1. unfold prog_bind.
  destruct s as [[[|n]|] h]; simpl.
  - exists []. done.
  - specialize (Hk tt (MState (Some n) h)).
    destruct (k tt (MState (Some n) h)) as [t r].
    simpl in *. by exists (frames t).
  - specialize (Hk tt (MState None h)).
    destruct (k tt (MState None h)) as [t r].
    simpl in *. by exists (frames t).
Qed.

(** X12.  In every run, abandoned or not, the first frame is the [Start]
    frame and every later frame is a [Data], [Error], [Complete] or [End]
    frame: no second [Start], and no frame of an unknown kind. *)
Theorem relay_frames_known (w : relay_world) (payload : PlaybookInput)
    (s : mstate) :
  exists rest,
    frames (event_stream w payload s).1 = start_frame :: rest
    /\ Forall (fun f => exists k, event_kind f = Some k /\ k <> Start) rest.
Proof.
  unfold event_stream. apply yield_then. intros _.
  apply yields_bind; [|intros; apply yields_yield; by exists End].
  apply yields_try; [|intros; apply yields_yield; by exists Error].
  apply yields_bind; [apply yields_await|]. intros process.
  apply yields_bind.
  { eapply yields_impl; [|apply stdout_loop_yields].
    intros f Hf. by exists Data. }
  intros _.
  apply yields_bind; [apply yields_await|]. intros rc.
  destruct (rc =? 0)%Z; apply yields_yield;
    [by exists Complete | by exists Error].
Qed.

Lemma event_stream_drained_actions w payload h :
  actions (event_stream w payload (drained h)).1
  = match w (playbook_cmd payload) with
    | Fault _ => []
    | Ok c =>
        Spawn (playbook_cmd payload) None true
        :: repeat ReadLine (lines_read (reads c))
        ++ match first_fault w payload with
           | None => [Wait]
           | Some _ => []
           end
    end.
Proof.
  unfold event_stream, first_fault.
  unfold mbind at 1 2. unfold prog_bind. simpl.
  unfold try_except, mbind, prog_bind. simpl.
  destruct (w (playbook_cmd payload)) as [c|e]; simpl; [|done].
  destruct (stdout_loop_drained (reads c) h) as (t & -> & _ & Ha).
  destruct (loop_fault (reads c)) as [e|]; simpl.
  - rewrite !actions_app, Ha. simpl. by rewrite ?app_nil_r.
  - destruct c as [rs [rc|e]]; simpl in *.
    + destruct (rc =? 0)%Z; simpl; rewrite !actions_app, Ha; simpl;
        by rewrite ?app_nil_r.
    + rewrite !actions_app, Ha. simpl. by rewrite ?app_nil_r.
Qed.

Lemma child_step_reads (n : nat) (c : child_state) :
  fold_left child_step (repeat ReadLine n) c = c.
Proof. induction n as [|n IH]; simpl; [done|]. apply IH. Qed.

(** X13.  What a drained run does to the child: nothing when the launch
    fails; otherwise it starts it once, reads up to the first fault and no
    further, and waits for it only when no fault occurred, so that after a
    fault the child is left running. *)
Theorem relay_child_fate (w : relay_world) (payload : PlaybookInput)
    (h : gmap loc dictobj) :
  let done := actions (event_stream w payload (drained h)).1 in
  match w (playbook_cmd payload), first_fault w payload with
  | Fault _, _ => done = []
  | Ok c, None =>
      done = Spawn (playbook_cmd payload) None true
             :: repeat ReadLine (length (reads c)) ++ [Wait]
      /\ child_after done = Reaped
  | Ok c, Some _ =>
      done = Spawn (playbook_cmd payload) None true
             :: repeat ReadLine (lines_read (reads c))
      /\ (lines_read (reads c) <= length (reads c))%nat
      /\ child_after done = Running
  end.
Proof.
  intros done. subst done. rewrite event_stream_drained_actions.
  assert (forall rs, (lines_read rs <= length rs)%nat) as Hle.
  { induction rs as [|[l|e] rs IH]; simpl; [lia| |lia].
    destruct (decode l); lia. }
  assert (forall rs, loop_fault rs = None -> lines_read rs = length rs) as Hall.
  { induction rs as [|[l|e] rs IH]; simpl; [done| |done].
    destruct (decode l); [|done]. intros H. by rewrite IH. }
  unfold first_fault.
  destruct (w (playbook_cmd payload)) as [c|e]; [|done].
  destruct (loop_fault (reads c)) as [e|] eqn:Hf.
  - rewrite app_nil_r. repeat split; [apply Hle|].
    unfold child_after. simpl. apply child_step_reads.
  - destruct (exit_status c) as [rc|e].
    + rewrite (Hall _ Hf). split; [done|].
      unfold child_after. simpl. by rewrite fold_left_app, child_step_reads.
    + rewrite app_nil_r. repeat split; [apply Hle|].
      unfold child_after. simpl. apply child_step_reads.
Qed.

(** ** The other tools *)

Lemma decode_nonempty (b : bytes) (t : str) :
  decode b = Ok t -> b <> [] -> t <> [].
Proof.
  unfold decode. destruct b as [|x b]; [done|]. intros H _. simpl in H.
  repeat match type of H with
         | context [if ?c then _ else _] => destruct c
         | context [match map _ ?l with _ => _ end] => destruct l; simpl in H
         | context [match ?l with [] => _ | _ => _ end] => destruct l; simpl in H
         end;
    try discriminate;
    match type of H with
    | context [prepend ?c ?r] => destruct r; simpl in H; by inversion H
    end.
Qed.

Lemma splitlines_from_head (cur s : str) :
  cur <> [] \/ s <> [] ->
  exists l rest,
    splitlines_from cur s = (cur ++ l) :: rest
    /\ l `prefix_of` s
    /\ forallb (fun c => negb (is_linebreak c)) l = true.
Proof.
  revert cur. induction s as [|c s IH]; intros cur Hne; simpl.
  - destruct Hne as [Hc|]; [|done]. rewrite bool_decide_eq_false_2 by done.
    exists [], []. by rewrite app_nil_r.
  - destruct (c =? 13) eqn:Hcr.
    + exists [], (match s with
                  | c' :: s'' => if c' =? 10 then splitlines_from [] s''
                                 else splitlines_from [] s
                  | [] => splitlines_from [] s
                  end).
      rewrite app_nil_r. split; [|split; [apply prefix_nil|done]].
      destruct s as [|c' s'']; [done|]. by destruct (c' =? 10).
    + destruct (is_linebreak c) eqn:Hlb.
      * exists [], (splitlines_from [] s). rewrite app_nil_r.
        split; [done|]. split; [apply prefix_nil|done].
      * destruct (IH (cur ++ [c])) as (l & rest & -> & Hpre & Hl).
        { left. by destruct cur. }
        exists (c :: l), rest. rewrite <- app_assoc. split; [done|].
        split; [by apply prefix_cons|]. simpl. by rewrite Hlb.
Qed.

(** X14.  [get_ansible_version] never fails on the index: an empty output
    gives the empty version, and an output that decodes gives its first
    line, which is an initial part of the text and holds no line break;
    the exit status and stderr play no part. *)
Theorem get_ansible_version_first_line (w : inventory_world)
    (h : gmap loc dictobj) :
  let run := get_ansible_version w (drained h) in
  match inventory_child w [lit "ansible"; lit "--version"] with
  | Fault e => run.2.1 = Raise e /\ actions run.1 = []
  | Ok c =>
      child_after (actions run.1) = Reaped
      /\ if bool_decide (cap_stdout c = []) then
           run.2.1 = Ret (JDict [(lit "version", JStr [])])
         else
           match decode (cap_stdout c) with
           | Fault e => run.2.1 = Raise e
           | Ok text =>
               exists v rest,
                 run.2.1 = Ret (JDict [(lit "version", JStr v)])
                 /\ splitlines text = v :: rest
                 /\ v `prefix_of` text
                 /\ forallb (fun c => negb (is_linebreak c)) v = true
           end
  end.
Proof.
  intros run. subst run. unfold get_ansible_version.
  destruct (inventory_child w _) as [c|e]; [|by run_prog].
  run_prog. case_bool_decide as Hempty; [by run_prog|].
  destruct (decode (cap_stdout c)) as [text|e] eqn:Hd; [|by run_prog].
  pose proof (decode_nonempty _ _ Hd Hempty) as Htext.
  destruct (splitlines_from_head [] text (or_intror Htext))
    as (v & rest & Hs & Hpre & Hv).
  simpl in Hs. run_prog. unfold splitlines, first_item. rewrite Hs.
  run_prog. split; [done|]. by exists v, rest.
Qed.

(** X15.  [list_hosts] starts its command without looking for the
    inventory file, reports any exit status as data, raises only the fault
    of the launch or of a decoding, and has collected the child whenever it
    started one. *)
Theorem list_hosts_reports (w : inventory_world) (inventory_file : str)
    (h : gmap loc dictobj) :
  let cmd := [lit "ansible"; lit "all"; lit "-i"; inventory_file;
              lit "--list-hosts"] in
  let run := list_hosts w inventory_file (drained h) in
  match inventory_child w cmd with
  | Fault e => run.2.1 = Raise e /\ actions run.1 = []
  | Ok c =>
      actions run.1 = [Spawn cmd None false; Communicate]
      /\ child_after (actions run.1) = Reaped
      /\ match decode (cap_stdout c), decode (cap_stderr c) with
         | Ok out, Ok err =>
             run.2.1 = Ret (collected_result out err (cap_returncode c))
         | Fault e, _ => run.2.1 = Raise e
         | Ok _, Fault e => run.2.1 = Raise e
         end
  end.
Proof.
  intros cmd run. subst run cmd. unfold list_hosts.
  destruct (inventory_child w _) as [c|e]; [|by run_prog].
  run_prog. destruct (decode (cap_stdout c)); [|by run_prog].
  run_prog. destruct (decode (cap_stderr c)); by run_prog.
Qed.

(** X16.  [validate_playbook] answers "Playbook not found" without starting
    anything when the file is missing; otherwise it checks the playbook
    against [inventory.ini] and reports the run, whatever its exit
    status. *)
Theorem validate_playbook_reports (w : inventory_world) (playbook : str)
    (h : gmap loc dictobj) :
  let cmd := [lit "ansible-playbook"; playbook; lit "--syntax-check";
              lit "-i"; lit "inventory.ini"] in
  let run := validate_playbook w playbook (drained h) in
  if path_exists w playbook then
    match inventory_child w cmd with
    | Fault e => run.2.1 = Raise e /\ actions run.1 = []
    | Ok c =>
        actions run.1 = [Spawn cmd None false; Communicate]
        /\ match decode (cap_stdout c), decode (cap_stderr c) with
           | Ok out, Ok err =>
               run.2.1 = Ret (collected_result out err (cap_returncode c))
           | Fault e, _ => run.2.1 = Raise e
           | Ok _, Fault e => run.2.1 = Raise e
           end
    end
  else
    run.2.1 = Ret (JDict [(lit "error",
                           JStr (lit "Playbook not found: " ++ playbook))])
    /\ actions run.1 = [].
Proof.
  intros cmd run. subst run cmd. unfold validate_playbook.
  destruct (path_exists w playbook); cbn [negb]; [|done].
  destruct (inventory_child w _) as [c|e]; [|by run_prog].
  run_prog. destruct (decode (cap_stdout c)); [|by run_prog].
  run_prog. destruct (decode (cap_stderr c)); by run_prog.
Qed.

(** X17.  [run_ad_hoc] passes the host, the module, the arguments and the
    inventory as four single arguments of a command of eight, whatever
    they contain, and reports the run; with a null inventory the launch
    raises [TypeError] and no child is started. *)
Theorem run_ad_hoc_reports (w : inventory_world) (input : AdHocInput)
    (h : gmap loc dictobj) :
  let run := run_ad_hoc w input (drained h) in
  match adhoc_inventory input with
  | None =>
      actions run.1 = []
      /\ exists e, run.2.1 = Raise e /\ exc_cls e = OtherError "TypeError"
  | Some inventory_file =>
      let cmd := [lit "ansible"; adhoc_host input; lit "-m"; adhoc_module input;
                  lit "-a"; adhoc_args input; lit "-i"; inventory_file] in
      match inventory_child w cmd with
      | Fault e => run.2.1 = Raise e /\ actions run.1 = []
      | Ok c =>
          actions run.1 = [Spawn cmd None false; Communicate]
          /\ match decode (cap_stdout c), decode (cap_stderr c) with
             | Ok out, Ok err =>
                 run.2.1 = Ret (collected_result out err (cap_returncode c))
             | Fault e, _ => run.2.1 = Raise e
             | Ok _, Fault e => run.2.1 = Raise e
             end
      end
  end.
Proof.
  intros run. subst run. unfold run_ad_hoc.
  destruct (adhoc_inventory input) as [inv|].
  - cbv zeta. destruct (inventory_child w _) as [c|e]; [|by run_prog].
    run_prog. destruct (decode (cap_stdout c)); [|by run_prog].
    run_prog. destruct (decode (cap_stderr c)); by run_prog.
  - run_prog. split; [done|]. eexists. split; done.
Qed.

(** ** Decoding, the command of the relay, and the environment of the tools *)

Lemma utf8_decode_ascii (pos : nat) (bs : list N) :
  Forall (fun b => b < 128) bs -> utf8_decode pos bs = inl bs.
Proof.
  intros H. revert pos. induction H as [|b bs Hb _ IH]; intros pos; [done|].
  simpl. apply N.ltb_lt in Hb. rewrite Hb. by rewrite IH.
Qed.

(** X18.  Bytes that are all ASCII always decode, to the same characters. *)
Theorem decode_ascii (b : bytes) :
  Forall (fun x => Byte.to_N x < 128) b -> decode b = Ok (map Byte.to_N b).
Proof.
  intros H. unfold decode. rewrite utf8_decode_ascii; [done|].
  by apply Forall_map.
Qed.

Lemma decode_ascii_witness :
  Forall (fun x => Byte.to_N x < 128) (blit "ok: [web1]")
  /\ decode (blit "ok: [web1]") = Ok (lit "ok: [web1]").
Proof.
  assert (Forall (fun x => Byte.to_N x < 128) (blit "ok: [web1]")) as H
    by (repeat constructor).
  split; [exact H|]. exact (decode_ascii _ H).
Defined.

(** X19.  The command of [run_playbook]: four arguments, the fourth being
    the inventory or [inventory.ini] when none or an empty one is given,
    followed by [--extra-vars] and the JSON text as one argument exactly
    when extra variables are given and not empty. *)
Theorem playbook_cmd_shape (payload : PlaybookInput) :
  let cmd := playbook_cmd payload in
  exists inv,
    take 4 cmd = [lit "ansible-playbook"; playbook payload; lit "-i"; inv]
    /\ inv <> []
    /\ (forall i, inventory payload = Some i -> i <> [] -> inv = i)
    /\ (inventory payload = None \/ inventory payload = Some [] ->
        inv = lit "inventory.ini")
    /\ match extra_vars payload with
       | None | Some [] => drop 4 cmd = []
       | Some ev => drop 4 cmd = [lit "--extra-vars"; json_dumps (JDict ev)]
       end.
Proof.
  intros cmd. subst cmd. unfold playbook_cmd.
  exists (inventory_or_default (inventory payload)).
  split; [by destruct (extra_vars payload) as [[|]|]|].
  split; [by destruct (inventory payload) as [[|]|]|].
  split; [intros i ->; by destruct i|].
  split; [by intros [-> | ->]|].
  by destruct (extra_vars payload) as [[|]|].
Qed.

Lemma playbook_cmd_shape_witness :
  let payload := {| playbook := lit "site.yml"; inventory := Some (lit "prod.ini");
                    extra_vars := Some [(lit "env", JStr (lit "prod"))] |} in
  (inventory payload = Some (lit "prod.ini") /\ lit "prod.ini" <> [])
  /\ exists inv,
       take 4 (playbook_cmd payload)
       = [lit "ansible-playbook"; lit "site.yml"; lit "-i"; inv]
       /\ inv = lit "prod.ini".
Proof.
  intros payload. split; [split; [reflexivity | discriminate]|].
  destruct (playbook_cmd_shape payload) as (inv & Htake & _ & Hinv & _).
  exists inv. split; [exact Htake|].
  apply (Hinv (lit "prod.ini")); [reflexivity | discriminate].
Defined.

Lemma stdout_loop_plain rs : acts plain_action (stdout_loop rs).
Proof.
  induction rs as [|r rs IH]; simpl; [apply acts_suspend|].
  apply acts_bind; [by apply acts_await|]. intros line.
  apply acts_bind; [apply acts_of_outcome|]. intros text.
  apply acts_bind; [|done].
  case_bool_decide; [apply acts_ret | apply acts_yield].
Qed.

Ltac plain_tool :=
  repeat first
    [ apply acts_ret | apply acts_raise | apply acts_of_outcome
    | apply acts_suspend | apply acts_yield | apply stdout_loop_plain
    | apply acts_await; done
    | apply acts_try; [|intros ?]
    | apply acts_bind; [|intros ?]
    | match goal with
      | |- acts _ (if ?b then _ else _) => destruct b
      | |- acts _ (match ?x with _ => _ end) => destruct x
      end ].

(** X20.  The relay and the tools other than the runner start their child
    with the environment of the server as it is, without the defaults of
    [_build_ansible_env], and never kill it, in any run. *)
Theorem tools_inherit_environment (json_loads : str -> outcome json)
    (w : inventory_world) (rw : relay_world) (payload : PlaybookInput)
    (path : str) (input : AdHocInput) :
  acts plain_action (event_stream rw payload)
  /\ acts plain_action (list_inventory json_loads w path)
  /\ acts plain_action (list_hosts w path)
  /\ acts plain_action (validate_playbook w path)
  /\ acts plain_action (run_ad_hoc w input)
  /\ acts plain_action (get_ansible_version w).
Proof.
  repeat split.
  - unfold event_stream. plain_tool.
  - unfold list_inventory. plain_tool.
  - unfold list_hosts. plain_tool.
  - unfold validate_playbook. plain_tool.
  - unfold run_ad_hoc. plain_tool.
  - unfold get_ansible_version, first_item. plain_tool.
Qed.

(** ** The further theorems at sample inputs *)

(** A name behind two directories. *)
Lemma generate_playbook_path_basename_witness :
  basename (strip (lit " roles/web/site.yml ")) <> []
  /\ path_join (PLAYBOOKS_DIR (lit "/srv/app")) (lit "site.yml")
     = lit "/srv/app/playbooks/site.yml"
  /\ basename (lit "/srv/app/playbooks/site.yml") = lit "site.yml".
Proof.
  assert (basename (strip (lit " roles/web/site.yml ")) <> []) as Hn
    by (vm_compute; discriminate).
  split; [exact Hn|].
  exact (generate_playbook_path_basename (lit "/srv/app")
           (lit " roles/web/site.yml ") Hn).
Defined.



(** The version line of ansible. *)
Example get_ansible_version_sample :
  (get_ansible_version
     {| path_exists := fun _ => true;
        inventory_child := fun _ =>
          Ok (Captured (blit "ansible [core 2.15.3]" ++ [x0a]
                        ++ blit "  config file = None" ++ [x0a]) [] 0) |}
     (drained ∅)).2.1
  = Ret (JDict [(lit "version", JStr (lit "ansible [core 2.15.3]"))]).
Proof. reflexivity. Qed.

(** ** Decoding gives text; a frame gives the text back *)

Ltac bits_to_arith :=
  unfold low6 in *;
  change 0x3F with (N.ones 6) in *; change 0x1F with (N.ones 5) in *;
  change 0x0F with (N.ones 4) in *; change 0x07 with (N.ones 3) in *;
  rewrite ?N.land_ones, ?N.shiftl_mul_pow2 in *;
  change (2 ^ 3) with 8 in *; change (2 ^ 4) with 16 in *;
  change (2 ^ 5) with 32 in *; change (2 ^ 6) with 64 in *;
  change (2 ^ 12) with 4096 in *; change (2 ^ 18) with 262144 in *.

Ltac bools_to_props :=
  repeat match goal with
         | H : (_ && _) = true |- _ => apply andb_true_iff in H as [? ?]
         | H : (_ || _) = true |- _ => apply orb_true_iff in H
         | H : (_ && _) = false |- _ => apply andb_false_iff in H
         | H : (_ || _) = false |- _ => apply orb_false_iff in H as [? ?]
         | H : negb _ = true |- _ => apply negb_true_iff in H
         | H : negb _ = false |- _ => apply negb_false_iff in H
         | H : (_ <? _) = true |- _ => apply N.ltb_lt in H
         | H : (_ <? _) = false |- _ => apply N.ltb_ge in H
         | H : (_ <=? _) = true |- _ => apply N.leb_le in H
         | H : (_ <=? _) = false |- _ => apply N.leb_gt in H
         | H : (_ =? _) = true |- _ => apply N.eqb_eq in H
         | H : (_ =? _) = false |- _ => apply N.eqb_neq in H
         end.

Lemma scalar_iff (c : N) :
  scalar c = true <-> c < 0xD800 \/ (0xE000 <= c /\ c < 0x110000).
Proof.
  unfold scalar. rewrite orb_true_iff, andb_true_iff, N.ltb_lt, N.leb_le, N.ltb_lt.
  done.
Qed.

Lemma two_byte_scalar (b0 b1 : N) :
  b0 < 0xE0 -> scalar (N.shiftl (N.land b0 0x1F) 6 + low6 b1) = true.
Proof.
  intros H. apply scalar_iff. left. bits_to_arith.
  pose proof (N.mod_lt b0 32). pose proof (N.mod_lt b1 64). lia.
Qed.

Lemma three_byte_scalar (b0 b1 b2 : N) :
  0xE0 <= b0 -> b0 < 0xF0 -> second_of_3 b0 b1 = true ->
  scalar (N.shiftl (N.land b0 0x0F) 12 + N.shiftl (low6 b1) 6 + low6 b2) = true.
Proof.
  intros Hlo Hhi H2. unfold second_of_3, is_cont in H2.
  apply scalar_iff. bits_to_arith.
  assert (b0 mod 16 = b0 - 224) as ->.
  { clear H2. symmetry. apply (N.mod_unique _ _ 14); lia. }
  apply andb_true_iff in H2 as [Hc Hx]. bools_to_props.
  assert (b1 mod 64 = b1 - 128) as ->.
  { symmetry. apply (N.mod_unique _ _ 2); lia. }
  assert (b2 mod 64 < 64) as Hm by (by apply N.mod_lt).
  generalize dependent (b2 mod 64). intros m2 Hm2.
  destruct (b1 <? 160) eqn:E; cbv iota in Hx; bools_to_props; lia.
Qed.

Lemma four_byte_scalar (b0 b1 b2 b3 : N) :
  0xF0 <= b0 -> b0 < 0xF5 -> second_of_4 b0 b1 = true ->
  scalar (N.shiftl (N.land b0 0x07) 18 + N.shiftl (low6 b1) 12
          + N.shiftl (low6 b2) 6 + low6 b3) = true.
Proof.
  intros Hlo Hhi H2. unfold second_of_4, is_cont in H2.
  apply scalar_iff. bits_to_arith.
  assert (b0 mod 8 = b0 - 240) as ->.
  { clear H2. symmetry. apply (N.mod_unique _ _ 30); lia. }
  apply andb_true_iff in H2 as [Hc Hx]. bools_to_props.
  assert (b1 mod 64 = b1 - 128) as ->.
  { symmetry. apply (N.mod_unique _ _ 2); lia. }
  assert (b2 mod 64 < 64) as Hm2 by (by apply N.mod_lt).
  assert (b3 mod 64 < 64) as Hm3 by (by apply N.mod_lt).
  generalize dependent (b2 mod 64). intros m2 Hm2.
  generalize dependent (b3 mod 64). intros m3 Hm3.
  destruct (b1 <? 144) eqn:E; cbv iota in Hx; bools_to_props; lia.
Qed.

Lemma prepend_scalar (c : N) (r : str + decode_error) (t : str) :
  scalar c = true ->
  (forall t', r = inl t' -> Forall (fun x => scalar x = true) t') ->
  prepend c r = inl t -> Forall (fun x => scalar x = true) t.
Proof.
  intros Hc Hr. destruct r as [t'|e]; simpl; [|done].
  intros [= <-]. constructor; [done|]. by apply Hr.
Qed.

Lemma utf8_decode_scalar (n : nat) :
  forall pos bs t,
    (length bs <= n)%nat ->
    utf8_decode pos bs = inl t -> Forall (fun x => scalar x = true) t.
Proof.
  induction n as [|n IH]; intros pos bs t Hn.
  - destruct bs; [|simpl in Hn; lia]. intros [= <-]. constructor.
  - destruct bs as [|b0 r0]; [intros [= <-]; constructor|].
    simpl in Hn. simpl.
    destruct (b0 <? 128) eqn:E0.
    { apply prepend_scalar.
      - apply scalar_iff. bools_to_props. lia.
      - intros t'. apply IH. lia. }
    destruct (b0 <? 194) eqn:E1; [done|].
    destruct (b0 <? 224) eqn:E2.
    { destruct r0 as [|b1 r1]; [done|]. destruct (is_cont b1); [|done].
      apply prepend_scalar.
      - apply two_byte_scalar. bools_to_props. lia.
      - intros t'. apply IH. simpl in Hn. lia. }
    destruct (b0 <? 240) eqn:E3.
    { destruct r0 as [|b1 r1]; [done|].
      destruct (second_of_3 b0 b1) eqn:S3; [|done]. simpl.
      destruct r1 as [|b2 r2]; [done|]. destruct (is_cont b2); [|done].
      apply prepend_scalar.
      - bools_to_props. by apply three_byte_scalar.
      - intros t'. apply IH. simpl in Hn. lia. }
    destruct (b0 <? 245) eqn:E4; [|done].
    destruct r0 as [|b1 r1]; [done|].
    destruct (second_of_4 b0 b1) eqn:S4; [|done]. simpl.
    destruct r1 as [|b2 r2]; [done|]. destruct (is_cont b2); [|done]. simpl.
    destruct r2 as [|b3 r3]; [done|]. destruct (is_cont b3); [|done].
    apply prepend_scalar.
    + bools_to_props. by apply four_byte_scalar.
    + intros t'. apply IH. simpl in Hn. lia.
Qed.

(** X21.  What [decode] returns holds Unicode scalar values only: no
    surrogate and nothing beyond U+10FFFF. *)
Theorem decode_scalar (b : bytes) (t : str) :
  decode b = Ok t -> Forall (fun c => scalar c = true) t.
Proof.
  unfold decode.
  destruct (utf8_decode 0 (map Byte.to_N b)) as [t'|e] eqn:E; [|done].
  intros [= <-]. by apply (utf8_decode_scalar _ _ _ _ (le_n _) E).
Qed.

Lemma unhex_hex_digit (d : N) : d < 16 -> unhex (hex_digit d) = d.
Proof.
  intros Hd. unfold unhex, hex_digit.
  destruct (d <? 10) eqn:E; bools_to_props.
  - assert ((48 + d <? 58) = true) as -> by (apply N.ltb_lt; lia). lia.
  - assert ((87 + d <? 58) = false) as -> by (apply N.ltb_ge; lia). lia.
Qed.

Lemma unhex4_hex4 (n : N) :
  n < 65536 ->
  match hex4 n with
  | [a; b; c; d] => unhex4 a b c d = n
  | _ => False
  end.
Proof.
  intros Hn. unfold hex4, unhex4.
  rewrite !unhex_hex_digit by (apply N.mod_lt; lia).
  assert (n / 4096 < 16) as H3 by (apply N.Div0.div_lt_upper_bound; lia).
  rewrite (N.mod_small (n / 4096)) by done.
  pose proof (N.div_mod' n 16) as E0.
  pose proof (N.div_mod' (n / 16) 16) as E1.
  pose proof (N.div_mod' (n / 256) 16) as E2.
  rewrite N.Div0.div_div in E1, E2. change (16 * 16) with 256 in E1.
  change (256 * 16) with 4096 in E2.
  assert (n / 16 mod 16 < 16) as B1 by (apply N.mod_lt; lia).
  assert (n / 256 mod 16 < 16) as B2 by (apply N.mod_lt; lia).
  assert (n mod 16 < 16) as B0 by (apply N.mod_lt; lia).
  generalize dependent (n mod 16). generalize dependent (n / 16 mod 16).
  generalize dependent (n / 256 mod 16). generalize dependent (n / 4096).
  generalize dependent (n / 256). generalize dependent (n / 16).
  intros. lia.
Qed.

Lemma lor_disjoint (a y : N) :
  N.land a (N.ones 10) = 0 -> y < 1024 -> N.lor a y = a + y.
Proof.
  intros Ha Hy.
  assert (N.land a y = 0) as Hd.
  { rewrite <- (N.mod_small y 1024) by done.
    change 1024 with (2 ^ 10). rewrite <- N.land_ones.
    by rewrite (N.land_comm y), N.land_assoc, Ha. }
  by rewrite <- N.lxor_lor, N.add_nocarry_lxor.
Qed.

Lemma surrogates_of (c : N) :
  65536 <= c -> c < 1114112 ->
  let v := c - 65536 in
  N.lor 0xD800 (N.land (N.shiftr v 10) 0x3FF) = 0xD800 + v / 1024
  /\ N.lor 0xDC00 (N.land v 0x3FF) = 0xDC00 + v mod 1024
  /\ v / 1024 < 1024 /\ v mod 1024 < 1024.
Proof.
  intros Hlo Hhi v.
  assert (v / 1024 < 1024) as Hq by (apply N.Div0.div_lt_upper_bound; lia).
  assert (v mod 1024 < 1024) as Hr by (by apply N.mod_lt).
  change 0x3FF with (N.ones 10). rewrite !N.land_ones, N.shiftr_div_pow2.
  change (2 ^ 10) with 1024. rewrite (N.mod_small (v / 1024)) by done.
  rewrite !lor_disjoint by done. done.
Qed.

Lemma json_read_char_escape (c : N) (r : str) :
  scalar c = true -> json_read_char (json_escape c ++ r) = Some (c, r).
Proof.
  intros Hc. apply scalar_iff in Hc. unfold json_escape.
  do 7 (match goal with
        | |- context [if (c =? ?k) then _ else _] =>
            destruct (c =? k) eqn:?;
            [match goal with H : (c =? _) = true |- _ =>
               apply N.eqb_eq in H; subst c; reflexivity end|]
        end).
  destruct ((32 <=? c) && (c <=? 126)) eqn:E.
  - simpl. unfold BACKSLASH in *. by rewrite Heqb0.
  - destruct (c <? 65536) eqn:E16; bools_to_props.
    + pose proof (unhex4_hex4 c E16) as Hh. unfold u_escape, hex4 in *.
      simpl. rewrite Hh.
      assert ((55296 <=? c) && (c <? 56320) = false) as ->; [|done].
      apply andb_false_iff. destruct Hc as [Hc|Hc].
      * left. apply N.leb_gt. lia.
      * right. apply N.ltb_ge. lia.
    + destruct Hc as [Hc|[_ Hc]]; [lia|].
      destruct (surrogates_of c E16 Hc) as (-> & -> & Hq & Hr).
      set (v := c - 65536) in *.
      pose proof (N.div_mod' v 1024) as Hv.
      set (q := v / 1024) in *. set (m := v mod 1024) in *.
      assert (55296 + q < 65536) as Hq' by (clearbody q; lia).
      assert (56320 + m < 65536) as Hm' by (clearbody m; lia).
      pose proof (unhex4_hex4 (55296 + q) Hq') as Hh.
      pose proof (unhex4_hex4 (56320 + m) Hm') as Hl.
      unfold u_escape, hex4 in *. simpl. rewrite Hh.
      assert ((55296 <=? 55296 + q) && (55296 + q <? 56320) = true) as ->.
      { apply andb_true_iff.
        split; [apply N.leb_le | apply N.ltb_lt]; clearbody q; lia. }
      rewrite Hl. f_equal. f_equal.
      clearbody q m. unfold v in *. lia.
Qed.

Lemma json_dumps_str_inj (s1 s2 : str) :
  Forall (fun c => scalar c = true) s1 ->
  Forall (fun c => scalar c = true) s2 ->
  json_dumps_str s1 = json_dumps_str s2 -> s1 = s2.
Proof.
  unfold json_dumps_str. intros H1 H2 [= E]. revert s2 H2 E.
  induction H1 as [|c1 s1 Hc1 _ IH]; intros s2 H2 E.
  - destruct H2 as [|c2 s2 Hc2 _]; [done|]. exfalso. simpl in E.
    apply (f_equal json_read_char) in E.
    rewrite <- app_assoc, (json_read_char_escape c2 _ Hc2) in E. simpl in E.
    injection E as _ E. by destruct (flat_map json_escape s2).
  - destruct H2 as [|c2 s2 Hc2 H2].
    + exfalso. simpl in E. apply (f_equal json_read_char) in E.
      rewrite <- app_assoc, (json_read_char_escape c1 _ Hc1) in E. simpl in E.
      injection E as _ E. by destruct (flat_map json_escape s1).
    + simpl in E. apply (f_equal json_read_char) in E.
      rewrite <- !app_assoc, (json_read_char_escape c1 _ Hc1),
        (json_read_char_escape c2 _ Hc2) in E.
      injection E as -> E. f_equal. by apply IH.
Qed.

(** X22.  A [Data] frame determines the text it carries: two lines that
    decode give the same frame only when they are the same once their
    trailing whitespace is removed, so that a reader of the stream gets the
    text of each line back. *)
Theorem data_frame_text (l1 l2 : bytes) (t1 t2 : str) :
  decode l1 = Ok t1 ->
  decode l2 = Ok t2 ->
  data_frame (rstrip t1) = data_frame (rstrip t2) ->
  rstrip t1 = rstrip t2.
Proof.
  intros H1%decode_scalar H2%decode_scalar E.
  assert (forall t, Forall (fun c => scalar c = true) t ->
                    Forall (fun c => scalar c = true) (rstrip t)) as Hr.
  { intros t Ht. destruct (rstrip_parts t) as (ws & Hs & _).
    rewrite Hs in Ht. by apply Forall_app in Ht as [? _]. }
  unfold data_frame in E. apply app_inv_head in E. apply app_inv_tail in E.
  apply json_dumps_str_inj; auto.
Qed.

(** The euro sign. *)
Lemma decode_scalar_witness :
  decode [xe2; x82; xac] = Ok [8364]
  /\ Forall (fun c => scalar c = true) [8364].
Proof.
  assert (decode [xe2; x82; xac] = Ok [8364]) as H by reflexivity.
  split; [exact H|]. exact (decode_scalar _ _ H).
Defined.

(** Two lines that differ in their trailing whitespace only. *)
Lemma data_frame_text_witness :
  (decode (blit "ok: [web1]  " ++ [x0a]) = Ok (lit "ok: [web1]  " ++ [LF])
   /\ decode (blit "ok: [web1]" ++ [x0d; x0a]) = Ok (lit "ok: [web1]" ++ [13; LF])
   /\ data_frame (rstrip (lit "ok: [web1]  " ++ [LF]))
      = data_frame (rstrip (lit "ok: [web1]" ++ [13; LF])))
  /\ rstrip (lit "ok: [web1]  " ++ [LF]) = rstrip (lit "ok: [web1]" ++ [13; LF]).
Proof.
  assert (decode (blit "ok: [web1]  " ++ [x0a]) = Ok (lit "ok: [web1]  " ++ [LF]))
    as H1 by reflexivity.
  assert (decode (blit "ok: [web1]" ++ [x0d; x0a])
          = Ok (lit "ok: [web1]" ++ [13; LF])) as H2 by reflexivity.
  assert (data_frame (rstrip (lit "ok: [web1]  " ++ [LF]))
          = data_frame (rstrip (lit "ok: [web1]" ++ [13; LF]))) as H3
    by reflexivity.
  split; [by repeat split|].
  exact (data_frame_text _ _ _ _ H1 H2 H3).
Defined.
